(** * testmux: an order-checking HTTP request multiplexer

    Shallow embedding of [testmux.go] (package
    [github.com/CenturyLinkLabs/testmux]) and proofs of its properties.

    Modelling conventions.
    - Go's [int] is the 64-bit two's complement integer; it is a [Z] and
      the one arithmetic operation of the package, [r.index++], wraps
      around ([wrap_int]).
    - A slice is a [list]; a pointer [&r.routes[i]] is the position [i],
      dereferenced with stdpp's lookup and written through with stdpp's
      insert.
    - [http.ResponseWriter] is an interface.  A writer is represented by
      the sequence of [WriteHeader] and [Write] calls it has received so
      far; [httptest.Code] and [httptest.Body] are what a
      [httptest.ResponseRecorder] shows after those calls, a
      [WriteHeader] with a code outside 100..999 being the call on which
      the recorder panics and keeps its state.  Header fields are not
      tracked.
    - A handler is a function from the writer and the request to the
      writer: handlers return normally and act on their writer only.
    - [*testing.T] is the record of what [t.Error] has been called with. *)

From Stdlib Require Import ZArith Lia Ascii.
From stdpp Require Import base list strings.

Local Open Scope string_scope.
Local Open Scope list_scope.

(** ** Go's [int] *)

Definition int_max : Z := (2 ^ 63 - 1)%Z.
Definition int_min : Z := (- 2 ^ 63)%Z.

(** Reduction of a mathematical integer to the value an [int] holds. *)
Definition wrap_int (z : Z) : Z := ((z + 2 ^ 63) mod 2 ^ 64 - 2 ^ 63)%Z.

(** ** The parts of the Go standard library the package calls *)

Module url.
Record URL := { Path : string }.
End url.

Module http.

Inductive call :=
| CallWriteHeader (code : Z)
| CallWrite (data : string).

Definition ResponseWriter := list call.

Record Request := { Method : string; URL : url.URL }.

Definition StatusOK : Z := 200.
Definition StatusNotFound : Z := 404.

Definition WriteHeader (w : ResponseWriter) (code : Z) : ResponseWriter :=
  w ++ [CallWriteHeader code].

Definition Write (w : ResponseWriter) (data : string) : ResponseWriter :=
  w ++ [CallWrite data].

End http.

Module fmt.

Definition newline : string := String (Ascii.ascii_of_nat 10) EmptyString.

(** [fmt.Fprintln(w, s)]: one [Write] of [s] followed by a newline. *)
Definition Fprintln (w : http.ResponseWriter) (s : string)
  : http.ResponseWriter :=
  http.Write w (s +:+ newline).

(** [fmt.Sprintf] for formats whose only verb is [%s], applied to
    string operands. *)
Fixpoint Sprintf (format : string) (a : list string) : string :=
  match format with
  | EmptyString => EmptyString
  | String "%"%char (String "s"%char rest) =>
      match a with
      | x :: a' => x +:+ Sprintf rest a'
      | [] => "%!s(MISSING)" +:+ Sprintf rest []
      end
  | String c rest => String c (Sprintf rest a)
  end.

End fmt.

Module httplib.

(** [http.Error(w, error, code)]: the status, then the message as a line. *)
Definition Error (w : http.ResponseWriter) (error : string) (code : Z)
  : http.ResponseWriter :=
  fmt.Fprintln (http.WriteHeader w code) error.

(** [http.NotFound(w, r)]. *)
Definition NotFound (w : http.ResponseWriter) (r : http.Request)
  : http.ResponseWriter :=
  Error w "404 page not found" http.StatusNotFound.

End httplib.

Module httptest.

(** The fields of a [ResponseRecorder] the package's users read. *)
Module ResponseRecorder.
Record t := { Code : Z; Body : string; wroteHeader : bool }.
End ResponseRecorder.

(** The recorder [NewRecorder()] returns: code 200, nothing written. *)
Definition fresh : ResponseRecorder.t :=
  {| ResponseRecorder.Code := 200; ResponseRecorder.Body := EmptyString;
     ResponseRecorder.wroteHeader := false |}.

(** [checkWriteHeaderCode]: the codes [WriteHeader] accepts; on any
    other code it panics. *)
Definition valid_code (code : Z) : bool :=
  (100 <=? code)%Z && (code <=? 999)%Z.

(** One call on a recorder.  [WriteHeader] does nothing once the header
    is written, panics on a code that is not valid, leaving the
    recorder as it was, and otherwise fixes the code.  [Write] first
    fixes the code to 200 when the header is not written yet, then
    adds to the body. *)
Definition record (rw : ResponseRecorder.t) (c : http.call)
  : ResponseRecorder.t :=
  match c with
  | http.CallWriteHeader code =>
      if ResponseRecorder.wroteHeader rw then rw
      else if valid_code code then
        {| ResponseRecorder.Code := code;
           ResponseRecorder.Body := ResponseRecorder.Body rw;
           ResponseRecorder.wroteHeader := true |}
      else rw
  | http.CallWrite data =>
      {| ResponseRecorder.Code :=
           if ResponseRecorder.wroteHeader rw then ResponseRecorder.Code rw
           else http.StatusOK;
         ResponseRecorder.Body := ResponseRecorder.Body rw +:+ data;
         ResponseRecorder.wroteHeader := true |}
  end.

(** The recorder after the calls of [w], from a fresh one. *)
Definition replay (w : http.ResponseWriter) : ResponseRecorder.t :=
  foldl record fresh w.

(** A fresh recorder has received no call. *)
Definition NewRecorder : http.ResponseWriter := [].

(** What a recorder that received the calls of [w] shows. *)
Definition Code (w : http.ResponseWriter) : Z :=
  ResponseRecorder.Code (replay w).

Definition Body (w : http.ResponseWriter) : string :=
  ResponseRecorder.Body (replay w).

Definition wroteHeader (w : http.ResponseWriter) : bool :=
  ResponseRecorder.wroteHeader (replay w).

End httptest.

Module testing.

Record T := { failed : bool; output : list string }.

Definition new : T := {| failed := false; output := [] |}.

(** [t.Error(msg)]: log the message and mark the test as failed. *)
Definition Error (t : T) (msg : string) : T :=
  {| failed := true; output := output t ++ [msg] |}.

Definition Failed (t : T) : bool := failed t.

End testing.

(** ** The package *)

Definition HandlerFunc : Type :=
  http.ResponseWriter -> http.Request -> http.ResponseWriter.

Record route := {
  method : string;
  path : string;
  handler : HandlerFunc;
  visited : bool
}.

Record Router := {
  routes : list route;
  index : Z;
  errors : list string
}.

(** The zero value [Router{}]. *)
Definition new_Router : Router :=
  {| routes := []; index := 0; errors := [] |}.

Definition RegisterFunc (r : Router) (method path : string)
    (handler : HandlerFunc) : Router :=
  let rte := {| method := method; path := path; handler := handler;
                visited := false |} in
  {| routes := routes r ++ [rte]; index := index r; errors := errors r |}.

Definition RegisterResp (r : Router) (method path : string) (status : Z)
    (body : string) : Router :=
  let rte := {| method := method; path := path;
                handler := fun w _ =>
                  fmt.Fprintln (http.WriteHeader w status) body;
                visited := false |} in
  {| routes := routes r ++ [rte]; index := index r; errors := errors r |}.

Definition addErrorf (r : Router) (format : string) (a : list string)
  : Router :=
  {| routes := routes r; index := index r;
     errors := errors r ++ [fmt.Sprintf format a] |}.

(** The loop of [match], from position [i] on: the position of the
    first route that is not visited and has the method and the path,
    with the flag [i == r.index]. *)
Fixpoint match_from (i : nat) (rs : list route) (idx : Z)
    (method_ path_ : string) : option (nat * bool) :=
  match rs with
  | [] => None
  | rte :: rs' =>
      if negb (visited rte) && String.eqb (method rte) method_
         && String.eqb (path rte) path_
      then Some (i, (Z.of_nat i =? idx)%Z)
      else match_from (S i) rs' idx method_ path_
  end.

Definition match_ (r : Router) (method_ path_ : string) : option (nat * bool) :=
  match_from 0 (routes r) (index r) method_ path_.

Definition mark_visited (rte : route) : route :=
  {| method := method rte; path := path rte; handler := handler rte;
     visited := true |}.

(** [rte.execute(w, req)] for the pointer [rte = &rs[p]]: run the handler,
    then set the flag of that element. *)
Definition execute (rs : list route) (p : nat) (w : http.ResponseWriter)
    (req : http.Request) : list route * http.ResponseWriter :=
  match rs !! p with
  | Some rte => (<[p := mark_visited rte]> rs, handler rte w req)
  | None => (rs, w)
  end.

Definition ServeHTTP (r : Router) (w : http.ResponseWriter) (req : http.Request)
  : Router * http.ResponseWriter :=
  let m := http.Method req in
  let p := url.Path (http.URL req) in
  let '(r1, w1) :=
    match match_ r m p with
    | Some (i, ordered) =>
        let '(rs, w') := execute (routes r) i w req in
        let r' := {| routes := rs; index := index r; errors := errors r |} in
        (if ordered then r'
         else addErrorf r' "Request out of order: %s %s" [m; p], w')
    | None =>
        (addErrorf r "Unexpected request: %s %s" [m; p], httplib.NotFound w req)
    end in
  ({| routes := routes r1; index := wrap_int (index r1 + 1);
      errors := errors r1 |}, w1).

Definition AssertVisited (r : Router) (t : testing.T)
  : Router * testing.T * bool :=
  let r' := foldl (fun acc rte =>
                     if visited rte then acc
                     else addErrorf acc "Unvisited route: %s %s"
                            [method rte; path rte])
                  r (routes r) in
  let t' := foldl testing.Error t (errors r') in
  (r', t', Nat.eqb (length (errors r')) 0).

(** ** Scenarios: scripts of calls on a router *)

Inductive registration :=
| Func (method_ path_ : string) (handler_ : HandlerFunc)
| Resp (method_ path_ : string) (status : Z) (body : string).

Definition register (r : Router) (g : registration) : Router :=
  match g with
  | Func m p h => RegisterFunc r m p h
  | Resp m p status body => RegisterResp r m p status body
  end.

Definition register_all (r : Router) (gs : list registration) : Router :=
  foldl register r gs.

Definition reg_key (g : registration) : string * string :=
  match g with
  | Func m p _ => (m, p)
  | Resp m p _ _ => (m, p)
  end.

Definition route_key (rte : route) : string * string := (method rte, path rte).

Definition req_key (req : http.Request) : string * string :=
  (http.Method req, url.Path (http.URL req)).

Definition NewRequest (method_ path_ : string) : http.Request :=
  {| http.Method := method_; http.URL := {| url.Path := path_ |} |}.

(** Dispatch the calls one after the other; the writers come back in
    the order of the calls. *)
Fixpoint serve_all (r : Router)
    (calls : list (http.ResponseWriter * http.Request))
  : Router * list http.ResponseWriter :=
  match calls with
  | [] => (r, [])
  | (w, req) :: calls' =>
      let '(r1, w1) := ServeHTTP r w req in
      let '(r2, ws) := serve_all r1 calls' in
      (r2, w1 :: ws)
  end.

(** Any call of the exported interface, and its effect on the router. *)
Inductive op :=
| OpRegisterFunc (method_ path_ : string) (handler_ : HandlerFunc)
| OpRegisterResp (method_ path_ : string) (status : Z) (body : string)
| OpServeHTTP (w : http.ResponseWriter) (req : http.Request)
| OpAssertVisited (t : testing.T).

Definition step (r : Router) (o : op) : Router :=
  match o with
  | OpRegisterFunc m p h => RegisterFunc r m p h
  | OpRegisterResp m p status body => RegisterResp r m p status body
  | OpServeHTTP w req => (ServeHTTP r w req).1
  | OpAssertVisited t => (AssertVisited r t).1.1
  end.

Definition run (r : Router) (ops : list op) : Router := foldl step r ops.

(** The diagnostics, as the package formats them. *)
Definition out_of_order_msg (m p : string) : string :=
  "Request out of order: " +:+ m +:+ " " +:+ p.
Definition unexpected_msg (m p : string) : string :=
  "Unexpected request: " +:+ m +:+ " " +:+ p.
Definition unvisited_msg (m p : string) : string :=
  "Unvisited route: " +:+ m +:+ " " +:+ p.


(** What [AssertVisited] adds for the routes [rs]: one diagnostic per
    route whose flag is still false, in the order of [rs]. *)
Definition unvisited_diagnostics (rs : list route) : list string :=
  map (fun rte => unvisited_msg (method rte) (path rte))
      (List.filter (fun rte => negb (visited rte)) rs).

(** [i] is the position of the first route of [rs] that is not visited
    and has method [m] and path [p]. *)
Definition first_unvisited (rs : list route) (m p : string) (i : nat) : Prop :=
  (exists rte, rs !! i = Some rte /\ visited rte = false /\
               method rte = m /\ path rte = p) /\
  forall j rj, j < i -> rs !! j = Some rj ->
    visited rj = true \/ (method rj, path rj) <> (m, p).

(** The test of the loop of [match] on one route. *)
Definition candidate (rte : route) (m p : string) : bool :=
  negb (visited rte) && String.eqb (method rte) m && String.eqb (path rte) p.

(** The body of the first loop of [AssertVisited]. *)
Definition scan_step (acc : Router) (rte : route) : Router :=
  if visited rte then acc
  else addErrorf acc "Unvisited route: %s %s" [method rte; path rte].

(** The route a registration appends. *)
Definition route_of (g : registration) : route :=
  match g with
  | Func m p h =>
      {| method := m; path := p; handler := h; visited := false |}
  | Resp m p status body =>
      {| method := m; path := p;
         handler := fun w _ => fmt.Fprintln (http.WriteHeader w status) body;
         visited := false |}
  end.

Definition is_dispatch (o : op) : bool :=
  match o with
  | OpServeHTTP _ _ => true
  | _ => false
  end.

(** Among routes with the same method and path, a later one is visited
    only if every earlier one is. *)
Definition fifo (rs : list route) : Prop :=
  forall i j ri rj, i < j -> rs !! i = Some ri -> rs !! j = Some rj ->
    route_key ri = route_key rj -> visited rj = true -> visited ri = true.

(** The number of visited routes, and the number of elements the two
    slices of a router hold. *)
Definition visited_count (rs : list route) : nat :=
  length (List.filter visited rs).

Definition size_of (r : Router) : nat :=
  length (routes r) + length (errors r).

(** The index is at most the number of visited routes plus the number
    of diagnostics. *)
Definition index_bounded (r : Router) : Prop :=
  (0 <= index r <= Z.of_nat (visited_count (routes r) + length (errors r)))%Z.

(** The number of routes still waiting for a request with method [m]
    and path [p]. *)
Definition pending (rs : list route) (m p : string) : nat :=
  length (List.filter (fun rte => candidate rte m p) rs).

Definition is_registration (o : op) : bool :=
  match o with
  | OpRegisterFunc _ _ _ => true
  | OpRegisterResp _ _ _ _ => true
  | _ => false
  end.

(** How many calls of a script are dispatches, and how many are
    registrations. *)
Definition dispatches (ops : list op) : nat :=
  length (List.filter is_dispatch ops).

Definition registrations (ops : list op) : nat :=
  length (List.filter is_registration ops).

(** ** The scenarios of the package's tests *)

Definition fresh_calls (reqs : list http.Request)
  : list (http.ResponseWriter * http.Request) :=
  map (fun req => (httptest.NewRecorder, req)) reqs.

(** The three requests every scenario dispatches. *)
Definition requests : list http.Request :=
  [NewRequest "GET" "/foo"; NewRequest "GET" "/bar"; NewRequest "PUT" "/foo"].

(** [TestServeHTTP_Success]. *)
Definition registrationsA : list registration :=
  [Resp "GET" "/foo" 200 EmptyString; Resp "GET" "/bar" 201 EmptyString;
   Resp "PUT" "/foo" 202 EmptyString].

Definition scenarioA : Router * list http.ResponseWriter :=
  serve_all (register_all new_Router registrationsA) (fresh_calls requests).

(** [TestServeHTTP_UnexpectedRequest]. *)
Definition registrationsB : list registration :=
  [Resp "GET" "/foo" 200 EmptyString; Resp "GET" "/bar" 201 EmptyString].

Definition scenarioB : Router * list http.ResponseWriter :=
  serve_all (register_all new_Router registrationsB) (fresh_calls requests).

(** [TestServeHTTP_OutOfOrderRequest]. *)
Definition registrationsC : list registration :=
  [Resp "GET" "/foo" 200 EmptyString; Resp "PUT" "/foo" 202 EmptyString;
   Resp "GET" "/bar" 201 EmptyString].

Definition scenarioC : Router * list http.ResponseWriter :=
  serve_all (register_all new_Router registrationsC) (fresh_calls requests).

(** A router with GET /foo and PUT /foo registered, nothing dispatched. *)
Definition two_routes : Router :=
  register_all new_Router
    [Resp "GET" "/foo" 200 EmptyString; Resp "PUT" "/foo" 202 EmptyString].

(** * Properties *)

(** ** Integers and strings *)

Lemma wrap_int_small (z : Z) :
  (int_min <= z <= int_max)%Z -> wrap_int z = z.
Proof.
  unfold int_min, int_max, wrap_int. intros H.
  rewrite Z.mod_small; lia.
Qed.

Lemma wrap_int_succ (z : Z) :
  (int_min <= z < int_max)%Z -> wrap_int (z + 1) = (z + 1)%Z.
Proof. intros H. apply wrap_int_small. lia. Qed.

Lemma append_empty_r (s : string) : s +:+ EmptyString = s.
Proof.
  induction s as [|c s IH]; [reflexivity|].
  change (String c s +:+ EmptyString) with (String c (s +:+ EmptyString)).
  now rewrite IH.
Qed.

Lemma Sprintf_out_of_order (m p : string) :
  fmt.Sprintf "Request out of order: %s %s" [m; p] = out_of_order_msg m p.
Proof. unfold out_of_order_msg. simpl. now rewrite append_empty_r. Qed.

Lemma Sprintf_unexpected (m p : string) :
  fmt.Sprintf "Unexpected request: %s %s" [m; p] = unexpected_msg m p.
Proof. unfold unexpected_msg. simpl. now rewrite append_empty_r. Qed.

Lemma Sprintf_unvisited (m p : string) :
  fmt.Sprintf "Unvisited route: %s %s" [m; p] = unvisited_msg m p.
Proof. unfold unvisited_msg. simpl. now rewrite append_empty_r. Qed.

(** ** The scan of [AssertVisited] *)

Lemma scan_routes (rs : list route) (r : Router) :
  foldl scan_step r rs =
  {| routes := routes r; index := index r;
     errors := errors r ++ unvisited_diagnostics rs |}.
Proof.
  revert r. induction rs as [|rte rs IH]; intros r.
  - unfold unvisited_diagnostics. simpl. rewrite app_nil_r. now destruct r.
  - cbn [foldl]. rewrite IH. unfold scan_step, unvisited_diagnostics.
    cbn [List.filter]. destruct (visited rte); cbn [negb map]; [reflexivity|].
    unfold addErrorf. cbn [routes index errors].
    rewrite Sprintf_unvisited, <- app_assoc. reflexivity.
Qed.

Lemma AssertVisited_eq (r : Router) (t : testing.T) :
  AssertVisited r t =
  ({| routes := routes r; index := index r;
      errors := errors r ++ unvisited_diagnostics (routes r) |},
   foldl testing.Error t (errors r ++ unvisited_diagnostics (routes r)),
   Nat.eqb (length (errors r ++ unvisited_diagnostics (routes r))) 0).
Proof. unfold AssertVisited. rewrite scan_routes. reflexivity. Qed.

Lemma unvisited_diagnostics_nil (rs : list route) :
  unvisited_diagnostics rs = [] <-> Forall (fun rte => visited rte = true) rs.
Proof.
  unfold unvisited_diagnostics. induction rs as [|rte rs IH]; simpl.
  - split; [constructor | reflexivity].
  - destruct (visited rte) eqn:Hv; simpl.
    + rewrite IH. split; [now constructor | now inversion 1].
    + split; [discriminate | inversion 1; congruence].
Qed.

Lemma unvisited_diagnostics_elem (rs : list route) (rte : route) :
  rte ∈ rs -> visited rte = false ->
  unvisited_msg (method rte) (path rte) ∈ unvisited_diagnostics rs.
Proof.
  intros Hin Hv. unfold unvisited_diagnostics.
  apply (list_elem_of_fmap_2
           (fun rte => unvisited_msg (method rte) (path rte))).
  apply list_elem_of_In, filter_In. split; [now apply list_elem_of_In|].
  now rewrite Hv.
Qed.

Lemma Error_output (msgs : list string) (t : testing.T) :
  testing.output (foldl testing.Error t msgs) = testing.output t ++ msgs.
Proof.
  revert t. induction msgs as [|msg msgs IH]; intros t; simpl.
  - now rewrite app_nil_r.
  - rewrite IH. simpl. now rewrite <- app_assoc.
Qed.

Lemma Error_failed (msgs : list string) (t : testing.T) :
  testing.Failed (foldl testing.Error t msgs) =
  testing.Failed t || negb (Nat.eqb (length msgs) 0).
Proof.
  revert t. induction msgs as [|msg msgs IH]; intros t; simpl.
  - now rewrite orb_false_r.
  - rewrite IH. simpl. destruct msgs; simpl; now rewrite ?orb_true_r.
Qed.

(** ** The matching loop *)


Lemma candidate_true (rte : route) (m p : string) :
  candidate rte m p = true <->
  visited rte = false /\ method rte = m /\ path rte = p.
Proof.
  unfold candidate.
  rewrite !andb_true_iff, negb_true_iff, !String.eqb_eq. tauto.
Qed.

Lemma candidate_false (rte : route) (m p : string) :
  candidate rte m p = false <->
  visited rte = true \/ (method rte, path rte) <> (m, p).
Proof.
  unfold candidate. destruct (visited rte); simpl.
  - split; [now left | reflexivity].
  - rewrite andb_false_iff, !String.eqb_neq. split.
    + intros [H|H]; right; intros [= Hm Hp]; contradiction.
    + intros [H|H]; [discriminate|].
      destruct (String.eqb_spec (method rte) m) as [Hm|]; [|now left].
      right. intros Hp. apply H. now rewrite Hm, Hp.
Qed.

Lemma match_from_unfold (i : nat) (rte : route) (rs : list route) (idx : Z)
    (m p : string) :
  match_from i (rte :: rs) idx m p =
  if candidate rte m p then Some (i, (Z.of_nat i =? idx)%Z)
  else match_from (S i) rs idx m p.
Proof. reflexivity. Qed.

Lemma first_unvisited_here (rte : route) (rs : list route) (m p : string) :
  candidate rte m p = true -> first_unvisited (rte :: rs) m p 0.
Proof.
  intros Hc. apply candidate_true in Hc. split.
  - exists rte. now split.
  - intros j rj Hj. lia.
Qed.

Lemma first_unvisited_later (rte : route) (rs : list route) (m p : string)
    (n : nat) :
  candidate rte m p = false ->
  first_unvisited rs m p n -> first_unvisited (rte :: rs) m p (S n).
Proof.
  intros Hc [Hex Hbefore]. split; [exact Hex|].
  intros [|j] rj Hj Hlook.
  - simpl in Hlook. injection Hlook as <-. now apply candidate_false.
  - simpl in Hlook. apply (Hbefore j); [lia | exact Hlook].
Qed.

Lemma first_unvisited_inv (rte : route) (rs : list route) (m p : string)
    (n : nat) :
  first_unvisited (rte :: rs) m p n ->
  (n = 0 /\ candidate rte m p = true) \/
  (exists n', n = S n' /\ candidate rte m p = false /\
              first_unvisited rs m p n').
Proof.
  intros [(x & Hx & Hv & Hm & Hp) Hbefore]. destruct n as [|n'].
  - left. split; [reflexivity|]. simpl in Hx. injection Hx as <-.
    now apply candidate_true.
  - right. exists n'. split; [reflexivity|]. split.
    + apply candidate_false. apply (Hbefore 0); [lia | reflexivity].
    + split; [now exists x|].
      intros j rj Hj Hlook. apply (Hbefore (S j)); [lia | exact Hlook].
Qed.

Lemma match_from_Some (rs : list route) (i k : nat) (idx : Z) (m p : string)
    (b : bool) :
  match_from i rs idx m p = Some (k, b) <->
  exists n, k = i + n /\ first_unvisited rs m p n /\
            b = (Z.of_nat k =? idx)%Z.
Proof.
  revert i. induction rs as [|rte rs IH]; intros i.
  - simpl. split; [discriminate|].
    intros (n & _ & [(x & Hx & _) _] & _). discriminate.
  - rewrite match_from_unfold. destruct (candidate rte m p) eqn:Hc.
    + split.
      * intros [= <- <-]. exists 0. split; [lia|].
        split; [now apply first_unvisited_here | reflexivity].
      * intros (n & -> & Hfirst & ->).
        apply first_unvisited_inv in Hfirst as [[-> _]|(n' & _ & Hc' & _)];
          [|congruence].
        now replace (i + 0) with i by lia.
    + rewrite IH. split.
      * intros (n & -> & Hfirst & ->). exists (S n). split; [lia|].
        split; [now apply first_unvisited_later | reflexivity].
      * intros (n & -> & Hfirst & ->).
        apply first_unvisited_inv in Hfirst as [[_ Hc']|(n' & -> & _ & Hn')];
          [congruence|].
        exists n'. split; [lia|]. split; [exact Hn' | reflexivity].
Qed.

Lemma match_from_None (rs : list route) (i : nat) (idx : Z) (m p : string) :
  match_from i rs idx m p = None <->
  forall rte, rte ∈ rs ->
    visited rte = true \/ (method rte, path rte) <> (m, p).
Proof.
  revert i. induction rs as [|rte rs IH]; intros i.
  - simpl. split; [|reflexivity]. intros _ rte Hin. inversion Hin.
  - rewrite match_from_unfold. destruct (candidate rte m p) eqn:Hc.
    + split; [discriminate|]. intros Hall.
      assert (candidate rte m p = false) as Hc'
        by (apply candidate_false, Hall; left).
      congruence.
    + rewrite IH. split.
      * intros Hall x Hin. apply elem_of_cons in Hin as [->|Hin].
        -- now apply candidate_false.
        -- now apply Hall.
      * intros Hall x Hin. apply Hall. now right.
Qed.

(** [match] returns the position of the first route that is unvisited
    and has the method and the path, flagged with [i == r.index]. *)
Lemma match_Some (r : Router) (m p : string) (i : nat) (b : bool) :
  match_ r m p = Some (i, b) <->
  first_unvisited (routes r) m p i /\ b = (Z.of_nat i =? index r)%Z.
Proof.
  unfold match_. rewrite match_from_Some. split.
  - intros (n & -> & H). exact H.
  - intros H. exists i. split; [reflexivity | exact H].
Qed.

Lemma match_None (r : Router) (m p : string) :
  match_ r m p = None <->
  forall rte, rte ∈ routes r ->
    visited rte = true \/ (method rte, path rte) <> (m, p).
Proof. apply match_from_None. Qed.

(** ** One dispatch *)

Lemma ServeHTTP_unmatched (r : Router) (w : http.ResponseWriter)
    (req : http.Request) :
  match_ r (http.Method req) (url.Path (http.URL req)) = None ->
  ServeHTTP r w req =
  ({| routes := routes r; index := wrap_int (index r + 1);
      errors := errors r ++
        [unexpected_msg (http.Method req) (url.Path (http.URL req))] |},
   httplib.NotFound w req).
Proof.
  intros Hm. unfold ServeHTTP. rewrite Hm. unfold addErrorf.
  rewrite Sprintf_unexpected. reflexivity.
Qed.

Lemma ServeHTTP_matched (r : Router) (w : http.ResponseWriter)
    (req : http.Request) (i : nat) (ordered : bool) (rte : route) :
  match_ r (http.Method req) (url.Path (http.URL req)) = Some (i, ordered) ->
  routes r !! i = Some rte ->
  ServeHTTP r w req =
  ({| routes := <[i := mark_visited rte]> (routes r);
      index := wrap_int (index r + 1);
      errors := errors r ++
        (if ordered then []
         else [out_of_order_msg (http.Method req)
                 (url.Path (http.URL req))]) |},
   handler rte w req).
Proof.
  intros Hm Hi. unfold ServeHTTP, execute. rewrite Hm, Hi.
  destruct ordered.
  - cbn [routes index errors]. now rewrite app_nil_r.
  - unfold addErrorf. rewrite Sprintf_out_of_order. reflexivity.
Qed.

Lemma NotFound_calls (w : http.ResponseWriter) (req : http.Request) :
  httplib.NotFound w req =
  w ++ [http.CallWriteHeader 404;
        http.CallWrite ("404 page not found" +:+ fmt.newline)].
Proof.
  unfold httplib.NotFound, httplib.Error, fmt.Fprintln, http.Write,
    http.WriteHeader, http.StatusNotFound.
  now rewrite <- app_assoc.
Qed.

Lemma record_after_header (calls : list http.call)
    (rw : httptest.ResponseRecorder.t) :
  httptest.ResponseRecorder.wroteHeader rw = true ->
  httptest.ResponseRecorder.Code (foldl httptest.record rw calls) =
    httptest.ResponseRecorder.Code rw.
Proof.
  revert rw. induction calls as [|c calls IH]; intros rw Hw; [reflexivity|].
  cbn [foldl]. destruct c as [code|data]; cbn [httptest.record].
  - rewrite Hw. now apply IH.
  - rewrite IH by reflexivity. cbn. now rewrite Hw.
Qed.

Lemma Code_first_call (w : http.ResponseWriter) (code : Z)
    (rest : http.ResponseWriter) :
  httptest.valid_code code = true ->
  httptest.Code (w ++ http.CallWriteHeader code :: rest) =
  if httptest.wroteHeader w then httptest.Code w else code.
Proof.
  intros Hvalid. unfold httptest.Code, httptest.wroteHeader, httptest.replay.
  rewrite foldl_app. cbn [foldl httptest.record].
  destruct (httptest.ResponseRecorder.wroteHeader
              (foldl httptest.record httptest.fresh w)) eqn:Hw.
  - now apply record_after_header.
  - rewrite Hvalid. now rewrite record_after_header.
Qed.

(** ** Registration *)


Lemma register_all_eq (gs : list registration) (r : Router) :
  register_all r gs =
  {| routes := routes r ++ map route_of gs; index := index r;
     errors := errors r |}.
Proof.
  unfold register_all. revert r. induction gs as [|g gs IH]; intros r.
  - simpl. rewrite app_nil_r. now destruct r.
  - cbn [foldl map]. rewrite IH. destruct g; cbn; now rewrite <- app_assoc.
Qed.

Lemma route_of_key (g : registration) : route_key (route_of g) = reg_key g.
Proof. now destruct g. Qed.

Lemma route_of_unvisited (gs : list registration) :
  Forall (fun rte => visited rte = false) (map route_of gs).
Proof. apply Forall_fmap, Forall_forall. now intros []. Qed.

(** ** Dispatching in the registered order *)

Lemma insert_middle {A : Type} (l1 l2 : list A) (x y : A) :
  <[length l1 := x]> (l1 ++ y :: l2) = l1 ++ x :: l2.
Proof.
  replace (length l1) with (length l1 + 0) by lia.
  now rewrite insert_app_r.
Qed.

Lemma match_in_order (pre suf : list route) (rte : route) (idx : Z)
    (errs : list string) (m p : string) :
  Forall (fun x => visited x = true) pre ->
  visited rte = false -> route_key rte = (m, p) ->
  match_ {| routes := pre ++ rte :: suf; index := idx; errors := errs |} m p =
  Some (length pre, (Z.of_nat (length pre) =? idx)%Z).
Proof.
  intros Hpre Hv [= Hm Hp]. apply match_Some. cbn [routes index].
  split; [|reflexivity]. split.
  - exists rte. now rewrite list_lookup_middle.
  - intros j rj Hj Hlook. left.
    rewrite lookup_app_l in Hlook by exact Hj.
    rewrite Forall_forall in Hpre. apply Hpre.
    apply list_elem_of_lookup. now exists j.
Qed.

Lemma serve_all_in_order (suf pre : list route) (errs : list string)
    (calls : list (http.ResponseWriter * http.Request)) :
  Forall (fun x => visited x = true) pre ->
  Forall (fun x => visited x = false) suf ->
  map (fun c => req_key c.2) calls = map route_key suf ->
  (Z.of_nat (length pre + length suf) <= int_max)%Z ->
  (serve_all {| routes := pre ++ suf; index := Z.of_nat (length pre);
                errors := errs |} calls).1 =
  {| routes := pre ++ map mark_visited suf;
     index := Z.of_nat (length pre + length suf); errors := errs |}.
Proof.
  revert pre calls.
  induction suf as [|rte suf IH]; intros pre calls Hpre Hsuf Hkeys Hlen.
  - destruct calls; [|discriminate]. cbn. now rewrite Nat.add_0_r.
  - destruct calls as [|[w req] calls]; [discriminate|].
    cbn [map snd] in Hkeys. injection Hkeys as Hm Hp Hkeys.
    apply Forall_cons in Hsuf as [Hv Hsuf].
    cbn [serve_all length] in *.
    rewrite (ServeHTTP_matched _ w req (length pre) true rte).
    + cbn [routes index errors]. rewrite app_nil_r.
      rewrite wrap_int_succ by (unfold int_min; lia).
      rewrite insert_middle.
      specialize (IH (pre ++ [mark_visited rte]) calls).
      rewrite length_app, <- app_assoc in IH. cbn [length app] in IH.
      replace (Z.of_nat (length pre) + 1)%Z
        with (Z.of_nat (length pre + 1)) by lia.
      destruct (serve_all _ calls) as [r2 ws] eqn:Hserve. cbn [fst] in *.
      rewrite IH.
      * rewrite <- app_assoc. cbn [map app]. do 2 f_equal. lia.
      * apply Forall_app. split; [exact Hpre|]. now repeat constructor.
      * exact Hsuf.
      * exact Hkeys.
      * lia.
    + rewrite (match_in_order pre suf rte _ _ _ _ Hpre Hv)
        by (unfold route_key; congruence).
      now rewrite Z.eqb_refl.
    + cbn [routes]. now rewrite list_lookup_middle.
Qed.

(** ** Concrete scenarios *)

Example scenarioA_codes :
  map httptest.Code scenarioA.2 = [200; 201; 202]%Z /\ errors scenarioA.1 = [].
Proof. split; reflexivity. Qed.

Example scenarioB_codes :
  map httptest.Code scenarioB.2 = [200; 201; 404]%Z /\
  errors scenarioB.1 = ["Unexpected request: PUT /foo"] /\
  (AssertVisited scenarioB.1 testing.new).2 = false.
Proof. repeat split; reflexivity. Qed.

(** ** Every operation *)

(** The two outcomes of a dispatch. *)
Lemma ServeHTTP_cases (r : Router) (w : http.ResponseWriter)
    (req : http.Request) :
  let m := http.Method req in
  let p := url.Path (http.URL req) in
  (match_ r m p = None /\
   ServeHTTP r w req =
   ({| routes := routes r; index := wrap_int (index r + 1);
       errors := errors r ++ [unexpected_msg m p] |},
    httplib.NotFound w req)) \/
  (exists (i : nat) (ordered : bool) (rte : route),
     first_unvisited (routes r) m p i /\
     routes r !! i = Some rte /\ visited rte = false /\
     route_key rte = (m, p) /\
     ServeHTTP r w req =
     ({| routes := <[i := mark_visited rte]> (routes r);
         index := wrap_int (index r + 1);
         errors := errors r ++
           (if ordered then [] else [out_of_order_msg m p]) |},
      handler rte w req)).
Proof.
  intros m p. destruct (match_ r m p) as [[i ordered]|] eqn:Hm.
  - right. pose proof Hm as Hm'. apply match_Some in Hm' as [Hfirst _].
    pose proof Hfirst as [(rte & Hi & Hv & Hkm & Hkp) _].
    exists i, ordered, rte.
    split; [exact Hfirst|]. split; [exact Hi|]. split; [exact Hv|].
    split; [unfold route_key; now rewrite Hkm, Hkp|].
    now apply ServeHTTP_matched.
  - left. split; [reflexivity|]. now apply ServeHTTP_unmatched.
Qed.


(** What a step does to the routes: nothing, or one more unvisited
    route at the end, or the flag of one unvisited route set. *)
Lemma step_routes (r : Router) (o : op) :
  routes (step r o) = routes r \/
  (exists rte, visited rte = false /\ routes (step r o) = routes r ++ [rte]) \/
  (exists i rte m p,
     first_unvisited (routes r) m p i /\ routes r !! i = Some rte /\
     visited rte = false /\ route_key rte = (m, p) /\
     routes (step r o) = <[i := mark_visited rte]> (routes r)).
Proof.
  destruct o as [m p h|m p status body|w req|t]; cbn [step].
  - right. left. eexists. split; [|reflexivity]. reflexivity.
  - right. left. eexists. split; [|reflexivity]. reflexivity.
  - destruct (ServeHTTP_cases r w req)
      as [[_ ->]|(i & b & rte & Hfirst & Hi & Hv & Hk & ->)].
    + now left.
    + right. right.
      now exists i, rte, (http.Method req), (url.Path (http.URL req)).
  - left. now rewrite AssertVisited_eq.
Qed.

Lemma step_errors (r : Router) (o : op) :
  exists added, errors (step r o) = errors r ++ added.
Proof.
  destruct o as [m p h|m p status body|w req|t]; cbn [step].
  - exists []. cbn. now rewrite app_nil_r.
  - exists []. cbn. now rewrite app_nil_r.
  - destruct (ServeHTTP_cases r w req)
      as [[_ ->]|(i & b & rte & _ & _ & _ & _ & ->)]; now eexists.
  - rewrite AssertVisited_eq. now eexists.
Qed.

Lemma step_index (r : Router) (o : op) :
  index (step r o) =
  if is_dispatch o then wrap_int (index r + 1) else index r.
Proof.
  destruct o as [m p h|m p status body|w req|t]; cbn [step is_dispatch];
    try reflexivity.
  - destruct (ServeHTTP_cases r w req)
      as [[_ ->]|(i & b & rte & _ & _ & _ & _ & ->)]; reflexivity.
  - now rewrite AssertVisited_eq.
Qed.

(** ** The index stays in the range of [int] *)

Lemma visited_count_le (rs : list route) : visited_count rs <= length rs.
Proof. apply List.filter_length_le. Qed.

Lemma visited_count_app (rs1 rs2 : list route) :
  visited_count (rs1 ++ rs2) = visited_count rs1 + visited_count rs2.
Proof. unfold visited_count. now rewrite List.filter_app, length_app. Qed.

Lemma visited_count_mark (rs : list route) (k : nat) (x : route) :
  rs !! k = Some x -> visited x = false ->
  visited_count (<[k := mark_visited x]> rs) = S (visited_count rs).
Proof.
  intros Hk Hv. rewrite <- (take_drop_middle rs k x Hk) at 2.
  rewrite <- (take_drop_middle rs k x Hk) at 1.
  assert (length (take k rs) = k) as Hlen.
  { rewrite length_take. apply lookup_lt_Some in Hk. lia. }
  rewrite <- Hlen at 1. rewrite insert_middle, !visited_count_app.
  change (mark_visited x :: drop (S k) rs)
    with ([mark_visited x] ++ drop (S k) rs).
  change (x :: drop (S k) rs) with ([x] ++ drop (S k) rs).
  rewrite !visited_count_app. unfold visited_count at 2 5.
  cbn [List.filter mark_visited visited]. rewrite Hv. cbn [length]. lia.
Qed.

Lemma step_size (r : Router) (o : op) : size_of r <= size_of (step r o).
Proof.
  unfold size_of. destruct (step_errors r o) as [added ->].
  rewrite length_app.
  destruct (step_routes r o)
    as [->|[(new & _ & ->)|(k & x & m & p & _ & _ & _ & _ & ->)]].
  - lia.
  - rewrite length_app. lia.
  - rewrite length_insert. lia.
Qed.

Lemma run_size (ops : list op) (r : Router) : size_of r <= size_of (run r ops).
Proof.
  unfold run. revert r. induction ops as [|o ops IH]; intros r; [reflexivity|].
  cbn [foldl]. etransitivity; [apply step_size | apply IH].
Qed.

Lemma index_bounded_step (r : Router) (o : op) :
  index_bounded r ->
  (Z.of_nat (size_of (step r o)) <= int_max)%Z ->
  index_bounded (step r o).
Proof.
  unfold index_bounded, size_of. intros Hinv Hsize.
  pose proof (visited_count_le (routes r)) as Hvc.
  destruct o as [m p h|m p status body|w req|t]; cbn [step] in *.
  - cbn [RegisterFunc routes index errors] in *.
    rewrite visited_count_app. cbn. lia.
  - cbn [RegisterResp routes index errors] in *.
    rewrite visited_count_app. cbn. lia.
  - destruct (ServeHTTP_cases r w req)
      as [[_ Heq]|(k & b & x & _ & Hk & Hv & _ & Heq)];
      rewrite Heq in *; cbn [fst routes index errors] in *.
    + rewrite length_app in *. cbn [length] in *.
      rewrite wrap_int_succ by (unfold int_min; lia). lia.
    + pose proof (visited_count_le (<[k := mark_visited x]> (routes r)))
        as Hvc'.
      rewrite (visited_count_mark _ _ _ Hk Hv) in *.
      rewrite length_app, length_insert in *.
      destruct b; cbn [length] in *;
        (rewrite wrap_int_succ by (unfold int_min; lia)); lia.
  - rewrite AssertVisited_eq in *. cbn [fst routes index errors] in *.
    rewrite length_app in *. lia.
Qed.

Lemma index_bounded_run (ops : list op) (r : Router) :
  index_bounded r ->
  (Z.of_nat (size_of (run r ops)) <= int_max)%Z ->
  index_bounded (run r ops).
Proof.
  unfold run. revert r. induction ops as [|o ops IH]; intros r Hinv Hsize.
  - exact Hinv.
  - cbn [foldl] in *. apply IH; [|exact Hsize].
    apply index_bounded_step; [exact Hinv|].
    pose proof (run_size ops (step r o)) as Hmono. unfold run in Hmono. lia.
Qed.

(** On a router used through its exported interface, the index counts
    the dispatches and is at most the number of visited routes plus the
    number of diagnostics: as long as the two slices have together at
    most [int_max] elements, [r.index++] has never wrapped around. *)
Lemma reachable_index_in_range (ops : list op) :
  let r := run new_Router ops in
  (Z.of_nat (size_of r) <= int_max)%Z ->
  (0 <= index r <= Z.of_nat (size_of r))%Z.
Proof.
  intros r Hsize.
  assert (index_bounded r) as Hinv.
  { apply index_bounded_run; [|exact Hsize]. unfold index_bounded. cbn. lia. }
  unfold index_bounded in Hinv. unfold size_of.
  pose proof (visited_count_le (routes r)). lia.
Qed.

(** ** Routes with the same method and path *)


Lemma fifo_step (r : Router) (o : op) :
  fifo (routes r) -> fifo (routes (step r o)).
Proof.
  intros Hfifo.
  destruct (step_routes r o)
    as [->|[(new & Hnew & ->)|(k & x & m & p & Hfirst & Hk & Hv & Hkey & ->)]].
  - exact Hfifo.
  - intros i j ri rj Hij Hi Hj Hsame Hvj.
    destruct (decide (j < length (routes r))) as [Hlt|Hge].
    + rewrite lookup_app_l in Hi by lia. rewrite lookup_app_l in Hj by lia.
      now apply (Hfifo i j ri rj).
    + rewrite lookup_app_r in Hj by lia.
      destruct (j - length (routes r)); [|discriminate Hj].
      injection Hj as <-. congruence.
  - intros i j ri rj Hij Hi Hj Hsame Hvj.
    apply list_lookup_insert_Some in Hi as [(-> & <- & _)|[Hik Hi]];
      [reflexivity|].
    apply list_lookup_insert_Some in Hj as [(-> & <- & _)|[Hjk Hj]].
    + destruct Hfirst as [_ Hbefore].
      destruct (Hbefore i ri Hij Hi) as [Hvi|Hne]; [exact Hvi|].
      exfalso. apply Hne. change (route_key ri = (m, p)).
      rewrite Hsame. exact Hkey.
    + now apply (Hfifo i j ri rj).
Qed.

Lemma fifo_run (ops : list op) (r : Router) :
  fifo (routes r) -> fifo (routes (run r ops)).
Proof.
  unfold run. revert r. induction ops as [|o ops IH]; intros r Hfifo.
  - exact Hfifo.
  - cbn [foldl]. apply IH, fifo_step, Hfifo.
Qed.

(** ** The claims *)

(** C1. After any registrations on a fresh router (at most [int_max] of
    them, the longest slice Go has), dispatching exactly the registered
    (method, path) pairs in the registered order makes [AssertVisited]
    return true: no diagnostic has been accumulated, nothing is
    reported to the test, and the routes are the registered ones, in
    the order of registration, every one of them visited. *)
Theorem in_order_scenario_succeeds (regs : list registration)
    (calls : list (http.ResponseWriter * http.Request)) (t : testing.T) :
  (Z.of_nat (length regs) <= int_max)%Z ->
  map (fun c => req_key c.2) calls = map reg_key regs ->
  let r := (serve_all (register_all new_Router regs) calls).1 in
  (AssertVisited r t).2 = true /\
  errors r = [] /\
  errors (AssertVisited r t).1.1 = [] /\
  routes r = map mark_visited (routes (register_all new_Router regs)) /\
  routes r = map (fun g => mark_visited (route_of g)) regs /\
  routes (AssertVisited r t).1.1 = routes r /\
  map route_key (routes r) = map reg_key regs /\
  Forall (fun rte => visited rte = true) (routes (AssertVisited r t).1.1) /\
  (AssertVisited r t).1.2 = t.
Proof.
  intros Hlen Hkeys r.
  assert (r = {| routes := map mark_visited (map route_of regs);
                 index := Z.of_nat (length regs); errors := [] |}) as Hr.
  { unfold r. rewrite register_all_eq. cbn [routes index errors new_Router app].
    pose proof (serve_all_in_order (map route_of regs) [] [] calls) as H.
    cbn [app length Nat.add] in H. rewrite length_map in H.
    change (Z.of_nat 0) with 0%Z in H. apply H.
    - constructor.
    - apply route_of_unvisited.
    - rewrite Hkeys, <- list_fmap_compose. apply list_fmap_ext.
      intros i g _. symmetry. apply route_of_key.
    - exact Hlen. }
  clearbody r. subst r.
  rewrite AssertVisited_eq. cbn [fst snd routes errors app].
  assert (Forall (fun rte => visited rte = true)
            (map mark_visited (map route_of regs))) as Hall.
  { apply Forall_fmap, Forall_forall. reflexivity. }
  pose proof Hall as Hnil. apply unvisited_diagnostics_nil in Hnil.
  rewrite Hnil.
  split; [reflexivity|]. split; [reflexivity|]. split; [reflexivity|].
  split; [now rewrite register_all_eq|].
  split; [now rewrite <- list_fmap_compose|]. split; [reflexivity|].
  split; [|split; [exact Hall | reflexivity]].
  rewrite <- !list_fmap_compose. apply list_fmap_ext.
  intros i g _. now destruct g.
Qed.

Lemma in_order_scenario_succeeds_witness :
  (Z.of_nat (length registrationsA) <= int_max)%Z /\
  map (fun c => req_key c.2) (fresh_calls requests) =
    map reg_key registrationsA /\
  (AssertVisited scenarioA.1 testing.new).2 = true /\
  errors scenarioA.1 = [] /\
  errors (AssertVisited scenarioA.1 testing.new).1.1 = [] /\
  routes scenarioA.1 =
    map mark_visited (routes (register_all new_Router registrationsA)) /\
  routes scenarioA.1 =
    map (fun g => mark_visited (route_of g)) registrationsA /\
  routes (AssertVisited scenarioA.1 testing.new).1.1 = routes scenarioA.1 /\
  map route_key (routes scenarioA.1) = map reg_key registrationsA /\
  Forall (fun rte => visited rte = true)
    (routes (AssertVisited scenarioA.1 testing.new).1.1) /\
  (AssertVisited scenarioA.1 testing.new).1.2 = testing.new.
Proof.
  assert (Z.of_nat (length registrationsA) <= int_max)%Z as Hlen
    by (unfold int_max; simpl; lia).
  split; [exact Hlen|]. split; [reflexivity|].
  apply (in_order_scenario_succeeds registrationsA (fresh_calls requests)
           testing.new Hlen).
  reflexivity.
Defined.

(** C2. [AssertVisited] appends, after the diagnostics accumulated so
    far, one ["Unvisited route: {method} {path}"] for every route whose
    flag is false, in the order of the routes; it leaves the routes and
    the index alone, hands every diagnostic to the test (which fails as
    soon as there is one), and returns true exactly when the resulting
    sequence is empty, that is when nothing had been accumulated and no
    route was unvisited. *)
Theorem AssertVisited_reports_unvisited (r : Router) (t : testing.T) :
  let r' := (AssertVisited r t).1.1 in
  let t' := (AssertVisited r t).1.2 in
  let ok := (AssertVisited r t).2 in
  errors r' =
    errors r ++
    map (fun rte => "Unvisited route: " +:+ method rte +:+ " " +:+ path rte)
        (List.filter (fun rte => negb (visited rte)) (routes r)) /\
  routes r' = routes r /\ index r' = index r /\
  testing.output t' = testing.output t ++ errors r' /\
  testing.Failed t' = testing.Failed t || negb ok /\
  (ok = true <-> errors r' = []) /\
  (ok = true <->
   errors r = [] /\ Forall (fun rte => visited rte = true) (routes r)).
Proof.
  rewrite AssertVisited_eq. cbn [fst snd routes index errors].
  split; [reflexivity|]. split; [reflexivity|]. split; [reflexivity|].
  split; [apply Error_output|]. split; [apply Error_failed|].
  assert (forall l : list string, Nat.eqb (length l) 0 = true <-> l = [])
    as Hnil.
  { intros [|x l]; simpl; split; congruence. }
  split; [apply Hnil|].
  rewrite Hnil. split.
  - intros H. apply app_eq_nil in H as [H1 H2].
    split; [exact H1 | now apply unvisited_diagnostics_nil].
  - intros [H1 H2]. apply unvisited_diagnostics_nil in H2.
    now rewrite H1, H2.
Qed.

(** C3. When no unvisited route has the request's method and path,
    [ServeHTTP] returns normally, what it sends to the writer is the
    404 status followed by the line ["404 page not found"] (so a fresh
    recorder shows code 404), exactly one diagnostic
    ["Unexpected request: {method} {path}"] is appended, and the routes
    are left as they were. *)
Theorem unexpected_request_not_found (r : Router) (w : http.ResponseWriter)
    (req : http.Request) :
  (forall rte, rte ∈ routes r -> visited rte = false ->
     route_key rte <> req_key req) ->
  ServeHTTP r w req =
    ({| routes := routes r; index := wrap_int (index r + 1);
        errors := errors r ++
          ["Unexpected request: " +:+ http.Method req +:+ " " +:+
           url.Path (http.URL req)] |},
     w ++ [http.CallWriteHeader 404;
           http.CallWrite ("404 page not found" +:+ fmt.newline)]) /\
  httptest.Code (ServeHTTP r w req).2 =
    (if httptest.wroteHeader w then httptest.Code w else 404%Z).
Proof.
  intros Hno.
  assert (match_ r (http.Method req) (url.Path (http.URL req)) = None) as Hm.
  { apply match_None. intros rte Hin.
    destruct (visited rte) eqn:Hv; [now left | right].
    apply (Hno rte Hin Hv). }
  rewrite (ServeHTTP_unmatched r w req Hm), NotFound_calls.
  split; [reflexivity | now apply Code_first_call].
Qed.

Lemma unexpected_request_not_found_witness :
  (forall rte, rte ∈ routes scenarioA.1 -> visited rte = false ->
     route_key rte <> req_key (NewRequest "GET" "/foo")) /\
  httptest.Code
    (ServeHTTP scenarioA.1 httptest.NewRecorder (NewRequest "GET" "/foo")).2 =
  404%Z.
Proof.
  assert (forall rte, rte ∈ routes scenarioA.1 -> visited rte = false ->
            route_key rte <> req_key (NewRequest "GET" "/foo")) as Hno.
  { intros rte Hin Hv. vm_compute in Hin.
    repeat (apply elem_of_cons in Hin as [->|Hin]; [discriminate Hv|]).
    inversion Hin. }
  split; [exact Hno|].
  exact (proj2 (unexpected_request_not_found scenarioA.1 httptest.NewRecorder
                  (NewRequest "GET" "/foo") Hno)).
Defined.

(** C4. When the first unvisited route with the request's method and
    path sits at a position other than the current index, [ServeHTTP]
    still answers with that route's handler (not with a 404), marks
    that route visited, and appends exactly one diagnostic
    ["Request out of order: {method} {path}"]. *)
Theorem out_of_order_request_served (r : Router) (w : http.ResponseWriter)
    (req : http.Request) (i : nat) (rte : route) :
  routes r !! i = Some rte ->
  visited rte = false ->
  route_key rte = req_key req ->
  (forall j rj, j < i -> routes r !! j = Some rj ->
     visited rj = true \/ route_key rj <> req_key req) ->
  Z.of_nat i <> index r ->
  ServeHTTP r w req =
    ({| routes := <[i := mark_visited rte]> (routes r);
        index := wrap_int (index r + 1);
        errors := errors r ++
          ["Request out of order: " +:+ http.Method req +:+ " " +:+
           url.Path (http.URL req)] |},
     handler rte w req) /\
  (exists rte', routes (ServeHTTP r w req).1 !! i = Some rte' /\
                visited rte' = true /\ method rte' = method rte /\
                path rte' = path rte).
Proof.
  intros Hi Hv Hkey Hbefore Hne.
  assert (match_ r (http.Method req) (url.Path (http.URL req)) =
          Some (i, false)) as Hm.
  { apply match_Some. injection Hkey as Hkm Hkp. split.
    - split; [now exists rte | exact Hbefore].
    - symmetry. now apply Z.eqb_neq. }
  rewrite (ServeHTTP_matched r w req i false rte Hm Hi).
  split; [reflexivity|].
  exists (mark_visited rte). cbn [fst routes].
  split; [|now repeat split].
  apply list_lookup_insert_eq. apply lookup_lt_Some with rte, Hi.
Qed.

Lemma out_of_order_request_served_witness :
  Z.of_nat 1 <> index two_routes /\
  httptest.Code
    (ServeHTTP two_routes httptest.NewRecorder (NewRequest "PUT" "/foo")).2 =
    202%Z /\
  errors
    (ServeHTTP two_routes httptest.NewRecorder (NewRequest "PUT" "/foo")).1 =
    ["Request out of order: PUT /foo"].
Proof.
  split; [discriminate|].
  pose proof (out_of_order_request_served two_routes httptest.NewRecorder
                (NewRequest "PUT" "/foo") 1
                (route_of (Resp "PUT" "/foo" 202 EmptyString))) as H.
  destruct H as [H _].
  - reflexivity.
  - reflexivity.
  - reflexivity.
  - intros j rj Hj Hlook. destruct j as [|j]; [|lia].
    injection Hlook as <-. right. discriminate.
  - discriminate.
  - rewrite H. split; reflexivity.
Defined.

(** C5 (as the code behaves). In scenario C (register GET /foo with 200,
    PUT /foo with 202, GET /bar with 201; dispatch GET /foo, GET /bar,
    PUT /foo) the three responses have the codes 200, 201, 202, and
    the diagnostics are, in the order of the dispatches that caused
    them, ["Request out of order: GET /bar"] and then
    ["Request out of order: PUT /foo"]. *)
Theorem scenarioC_codes_and_diagnostics :
  map httptest.Code scenarioC.2 = [200; 201; 202]%Z /\
  errors scenarioC.1 =
    ["Request out of order: GET /bar"; "Request out of order: PUT /foo"].
Proof. split; reflexivity. Qed.

(** C5 as stated fails: the diagnostics do not come in the order
    PUT /foo, GET /bar. *)
Lemma scenarioC_claimed_order_fails :
  ~ (map httptest.Code scenarioC.2 = [200; 201; 202]%Z /\
     errors scenarioC.1 =
       ["Request out of order: PUT /foo"; "Request out of order: GET /bar"]).
Proof. intros [_ H]. vm_compute in H. discriminate H. Qed.

(** C6. [match] finds exactly the first route, in registration order,
    whose flag is false and whose method and path are the requested
    ones (and nothing when there is no such route).  Hence a dispatch
    never touches a route behind an unvisited route with the request's
    method and path, and in every state reached from a fresh router,
    of two routes with the same method and path the later one is
    visited only if the earlier one is: they are consumed in
    registration order. *)
Theorem match_first_unvisited_fifo :
  (forall (r : Router) (m p : string),
     (forall i ordered,
        match_ r m p = Some (i, ordered) <->
        first_unvisited (routes r) m p i /\
        ordered = (Z.of_nat i =? index r)%Z) /\
     (match_ r m p = None <->
      forall rte, rte ∈ routes r ->
        visited rte = true \/ (method rte, path rte) <> (m, p))) /\
  (forall (r : Router) (w : http.ResponseWriter) (req : http.Request)
          (i j : nat) (ri rj : route),
     i < j -> routes r !! i = Some ri -> visited ri = false ->
     route_key ri = req_key req -> routes r !! j = Some rj ->
     routes (ServeHTTP r w req).1 !! j = Some rj) /\
  (forall (ops : list op) (i j : nat) (ri rj : route),
     let r := run new_Router ops in
     i < j -> routes r !! i = Some ri -> routes r !! j = Some rj ->
     route_key ri = route_key rj ->
     visited rj = true -> visited ri = true).
Proof.
  split; [|split].
  - intros r m p. split.
    + intros i ordered. apply match_Some.
    + apply match_None.
  - intros r w req i j ri rj Hij Hi Hvi Hkey Hj.
    destruct (ServeHTTP_cases r w req)
      as [[_ ->]|(k & b & x & [_ Hbefore] & _ & _ & _ & ->)];
      [exact Hj|].
    cbn [fst routes]. rewrite list_lookup_insert_ne; [exact Hj|].
    intros ->. destruct (Hbefore i ri Hij Hi) as [H|H]; [congruence|].
    now apply H.
  - intros ops i j ri rj r. apply (fifo_run ops new_Router).
    intros i' j' ri' rj' _ Hi'. discriminate Hi'.
Qed.

Lemma match_first_unvisited_fifo_witness :
  let slow := Resp "GET" "/job" 202 "pending" in
  let done := Resp "GET" "/job" 200 "done" in
  let get := NewRequest "GET" "/job" in
  let r := register_all new_Router [slow; done] in
  let r2 := run new_Router
              [OpRegisterResp "GET" "/job" 202 "pending";
               OpRegisterResp "GET" "/job" 200 "done";
               OpServeHTTP httptest.NewRecorder get;
               OpServeHTTP httptest.NewRecorder get] in
  match_ r "GET" "/job" = Some (0, true) /\
  routes (ServeHTTP r httptest.NewRecorder get).1 !! 1 =
    Some (route_of done) /\
  routes r2 !! 1 = Some (mark_visited (route_of done)) /\
  visited (mark_visited (route_of slow)) = true.
Proof.
  intros slow done get r r2.
  destruct match_first_unvisited_fifo as (Hmatch & Hkeep & Hfifo).
  split; [|split; [|split]].
  - apply (Hmatch r "GET" "/job"). split.
    + split.
      * exists (route_of slow). repeat split.
      * intros j rj Hj. lia.
    + reflexivity.
  - apply (Hkeep r httptest.NewRecorder get 0 1 (route_of slow)
             (route_of done)).
    + lia.
    + reflexivity.
    + reflexivity.
    + reflexivity.
    + reflexivity.
  - reflexivity.
  - apply (Hfifo [OpRegisterResp "GET" "/job" 202 "pending";
                  OpRegisterResp "GET" "/job" 200 "done";
                  OpServeHTTP httptest.NewRecorder get;
                  OpServeHTTP httptest.NewRecorder get]
             0 1 (mark_visited (route_of slow)) (mark_visited (route_of done))).
    + lia.
    + reflexivity.
    + reflexivity.
    + reflexivity.
    + reflexivity.
Defined.

(** C7. Every operation (either registration, [ServeHTTP],
    [AssertVisited]) keeps the invariants of the router.  While the
    index is below the largest [int], where [r.index++] does not wrap
    around: [ServeHTTP] adds exactly 1 to the index whatever the
    outcome of the match, the other operations leave it alone, so it
    never decreases.  A route whose flag is true is left as it is, at
    its position.  The diagnostics accumulated so far stay, unchanged,
    at the front of the errors. *)
Theorem operations_preserve_invariants (r : Router) (o : op) :
  (int_min <= index r < int_max)%Z ->
  let r' := step r o in
  index r' = (if is_dispatch o then index r + 1 else index r)%Z /\
  (index r <= index r')%Z /\
  (forall i rte, routes r !! i = Some rte -> visited rte = true ->
     routes r' !! i = Some rte) /\
  (forall i rte, routes r !! i = Some rte ->
     exists rte', routes r' !! i = Some rte' /\
       method rte' = method rte /\ path rte' = path rte /\
       handler rte' = handler rte) /\
  errors r `prefix_of` errors r' /\
  length (routes r) <= length (routes r').
Proof.
  intros Hrange r'. unfold r'.
  assert (index (step r o) =
          (if is_dispatch o then index r + 1 else index r)%Z) as Hidx.
  { rewrite step_index. destruct (is_dispatch o); [|reflexivity].
    now apply wrap_int_succ. }
  split; [exact Hidx|].
  split; [rewrite Hidx; destruct (is_dispatch o); lia|].
  destruct (step_errors r o) as [added Herr].
  destruct (step_routes r o)
    as [Hrs|[(new & _ & Hrs)|(k & x & m & p & _ & Hk & Hv & _ & Hrs)]];
    rewrite Hrs, Herr.
  - split; [tauto|]. split; [|split; [now exists added | lia]].
    intros i rte Hi. now exists rte.
  - split; [|split; [|split; [now exists added|]]].
    + intros i rte Hi _. now apply lookup_app_l_Some.
    + intros i rte Hi. exists rte. split; [now apply lookup_app_l_Some|].
      now repeat split.
    + rewrite length_app. lia.
  - split; [|split; [|split; [now exists added|]]].
    + intros i rte Hi Hvis. destruct (decide (k = i)) as [->|Hne].
      * congruence.
      * now rewrite list_lookup_insert_ne.
    + intros i rte Hi. destruct (decide (k = i)) as [->|Hne].
      * exists (mark_visited rte). replace x with rte by congruence.
        split; [|now repeat split].
        apply list_lookup_insert_eq. now apply lookup_lt_Some with rte.
      * exists rte. rewrite list_lookup_insert_ne by exact Hne.
        now repeat split.
    + now rewrite length_insert.
Qed.

Lemma operations_preserve_invariants_witness :
  (int_min <= index scenarioB.1 < int_max)%Z /\
  index (step scenarioB.1
           (OpServeHTTP httptest.NewRecorder (NewRequest "PUT" "/foo"))) =
  (index scenarioB.1 + 1)%Z.
Proof.
  assert (int_min <= index scenarioB.1 < int_max)%Z as Hrange
    by (change (index scenarioB.1) with 3%Z; unfold int_min, int_max; lia).
  split; [exact Hrange|].
  exact (proj1 (operations_preserve_invariants scenarioB.1
                  (OpServeHTTP httptest.NewRecorder (NewRequest "PUT" "/foo"))
                  Hrange)).
Defined.

(** C8. [AssertVisited] is not idempotent: with a route still
    unvisited, the first call appends that route's
    ["Unvisited route: ..."] diagnostic and a second call appends it
    once more after everything the first call left, so the router
    after the second call differs from the router after the first. *)
Theorem AssertVisited_twice_duplicates (r : Router) (t1 t2 : testing.T)
    (rte : route) :
  rte ∈ routes r -> visited rte = false ->
  let r1 := (AssertVisited r t1).1.1 in
  let r2 := (AssertVisited r1 t2).1.1 in
  let msg := "Unvisited route: " +:+ method rte +:+ " " +:+ path rte in
  exists added,
    msg ∈ added /\
    errors r1 = errors r ++ added /\
    errors r2 = errors r ++ added ++ added /\
    r2 <> r1.
Proof.
  intros Hin Hv r1 r2 msg. exists (unvisited_diagnostics (routes r)).
  unfold r2, r1. rewrite !AssertVisited_eq. cbn [fst snd routes errors].
  pose proof (unvisited_diagnostics_elem (routes r) rte Hin Hv) as Hmsg.
  split; [exact Hmsg|]. split; [reflexivity|].
  split; [now rewrite <- app_assoc|].
  intros [= Heq].
  apply (f_equal length) in Heq. rewrite !length_app in Heq.
  destruct (unvisited_diagnostics (routes r)); [inversion Hmsg|].
  simpl in Heq. lia.
Qed.

Lemma AssertVisited_twice_duplicates_witness :
  let r := register_all new_Router [Resp "GET" "/foo" 200 EmptyString] in
  let r1 := (AssertVisited r testing.new).1.1 in
  let r2 := (AssertVisited r1 testing.new).1.1 in
  route_of (Resp "GET" "/foo" 200 EmptyString) ∈ routes r /\
  exists added,
    "Unvisited route: GET /foo" ∈ added /\
    errors r1 = errors r ++ added /\
    errors r2 = errors r ++ added ++ added /\
    r2 <> r1.
Proof.
  intros r r1 r2. split; [left|].
  apply (AssertVisited_twice_duplicates r testing.new testing.new
           (route_of (Resp "GET" "/foo" 200 EmptyString))).
  - left.
  - reflexivity.
Defined.

Example AssertVisited_twice_errors :
  let r := register_all new_Router [Resp "GET" "/foo" 200 EmptyString] in
  errors (AssertVisited (AssertVisited r testing.new).1.1 testing.new).1.1 =
  ["Unvisited route: GET /foo"; "Unvisited route: GET /foo"].
Proof. reflexivity. Qed.

(** C9. [RegisterResp] appends one unvisited route with the given
    method and path whose handler, on any writer and request, first
    sets the status to the given code and then writes, in one piece,
    the body followed by one newline character, whatever the code and
    the body.  For a code a writer accepts (100 to 999; on another one
    [WriteHeader] of a recorder panics) a fresh recorder then shows
    that code and that body. *)
Theorem RegisterResp_handler (r : Router) (m p : string) (status : Z)
    (body : string) :
  exists rte,
    RegisterResp r m p status body =
      {| routes := routes r ++ [rte]; index := index r;
         errors := errors r |} /\
    method rte = m /\ path rte = p /\ visited rte = false /\
    forall (w : http.ResponseWriter) (req : http.Request),
      handler rte w req =
        w ++ [http.CallWriteHeader status;
              http.CallWrite (body +:+ String (ascii_of_nat 10) EmptyString)] /\
      ((100 <= status <= 999)%Z ->
       httptest.Code (handler rte httptest.NewRecorder req) = status /\
       httptest.Body (handler rte httptest.NewRecorder req) =
         body +:+ String (ascii_of_nat 10) EmptyString).
Proof.
  eexists. split; [reflexivity|]. cbn [method path visited handler].
  split; [reflexivity|]. split; [reflexivity|]. split; [reflexivity|].
  intros w req. split.
  - unfold fmt.Fprintln, http.Write, http.WriteHeader.
    now rewrite <- app_assoc.
  - intros Hrange.
    assert (httptest.valid_code status = true) as Hvalid.
    { unfold httptest.valid_code.
      apply andb_true_iff. split; apply Z.leb_le; lia. }
    unfold httptest.Code, httptest.Body, httptest.replay, fmt.Fprintln,
      http.Write, http.WriteHeader, httptest.NewRecorder.
    cbn [app foldl httptest.record httptest.fresh
         httptest.ResponseRecorder.wroteHeader].
    rewrite Hvalid. split; reflexivity.
Qed.

Lemma RegisterResp_handler_witness :
  (100 <= 202 <= 999)%Z /\
  exists rte,
    routes (RegisterResp new_Router "GET" "/foo" 202 "Hello") = [rte] /\
    httptest.Code
      (handler rte httptest.NewRecorder (NewRequest "GET" "/foo")) = 202%Z /\
    httptest.Body
      (handler rte httptest.NewRecorder (NewRequest "GET" "/foo")) =
      "Hello" +:+ String (ascii_of_nat 10) EmptyString.
Proof.
  assert (100 <= 202 <= 999)%Z as Hrange by lia.
  split; [exact Hrange|].
  destruct (RegisterResp_handler new_Router "GET" "/foo" 202 "Hello")
    as (rte & Heq & _ & _ & _ & Hcalls).
  exists rte. split; [now rewrite Heq|].
  exact (proj2 (Hcalls httptest.NewRecorder (NewRequest "GET" "/foo"))
           Hrange).
Defined.

(** C10. When [AssertVisited] returns true it has changed nothing, and
    a second call right after it returns true again, appends no
    diagnostic, reports nothing to its test and leaves the routes, the
    index and the errors as they were. *)
Theorem AssertVisited_success_idempotent (r : Router) (t t2 : testing.T) :
  (AssertVisited r t).2 = true ->
  (AssertVisited r t).1.1 = r /\
  (AssertVisited r t).1.2 = t /\
  AssertVisited (AssertVisited r t).1.1 t2 = (r, t2, true).
Proof.
  rewrite AssertVisited_eq. cbn [fst snd]. intros Hok.
  assert (errors r ++ unvisited_diagnostics (routes r) = []) as Hnil.
  { destruct (errors r ++ unvisited_diagnostics (routes r));
      [reflexivity | discriminate Hok]. }
  rewrite Hnil. apply app_eq_nil in Hnil as [He Hu].
  assert ({| routes := routes r; index := index r; errors := [] |} = r) as Hr.
  { destruct r. cbn in *. now subst. }
  rewrite Hr, AssertVisited_eq, He, Hu. cbn [app length foldl Nat.eqb].
  now rewrite Hr.
Qed.

Lemma AssertVisited_success_idempotent_witness :
  (AssertVisited scenarioA.1 testing.new).2 = true /\
  AssertVisited (AssertVisited scenarioA.1 testing.new).1.1 testing.new =
  (scenarioA.1, testing.new, true).
Proof.
  split; [reflexivity|].
  apply (AssertVisited_success_idempotent scenarioA.1 testing.new testing.new).
  reflexivity.
Defined.

(** ** Further properties of the package *)

(** *** Registration and matching *)

Lemma candidate_route_of (g : registration) (m p : string) :
  candidate (route_of g) m p = true <-> reg_key g = (m, p).
Proof.
  rewrite candidate_true. destruct g; cbn; split.
  - intros (_ & -> & ->). reflexivity.
  - intros [= -> ->]. now repeat split.
  - intros (_ & -> & ->). reflexivity.
  - intros [= -> ->]. now repeat split.
Qed.

Lemma match_from_snoc (rs : list route) (x : route) (i : nat) (idx : Z)
    (m p : string) :
  match_from i (rs ++ [x]) idx m p =
  match match_from i rs idx m p with
  | Some found => Some found
  | None =>
      if candidate x m p
      then Some (i + length rs, (Z.of_nat (i + length rs) =? idx)%Z)
      else None
  end.
Proof.
  revert i. induction rs as [|rte rs IH]; intros i.
  - cbn [app length]. rewrite match_from_unfold. cbn [match_from].
    now rewrite Nat.add_0_r.
  - cbn [app length]. rewrite !match_from_unfold.
    destruct (candidate rte m p); [reflexivity|].
    rewrite IH. now replace (S i + length rs) with (i + S (length rs)) by lia.
Qed.

Lemma register_eq (r : Router) (g : registration) :
  register r g =
  {| routes := routes r ++ [route_of g]; index := index r;
     errors := errors r |}.
Proof. now destruct g. Qed.

(** X1. Registering a route (with either registration function) does
    not change what [match] finds for a request that already had an
    unvisited route; a request that had none now finds the new route,
    at the end of the slice, when its method and path are the
    registered ones, and still nothing otherwise. *)
Theorem match_after_register (r : Router) (g : registration) (m p : string) :
  match_ (register r g) m p =
  match match_ r m p with
  | Some found => Some found
  | None =>
      if decide (reg_key g = (m, p))
      then Some (length (routes r),
                 (Z.of_nat (length (routes r)) =? index r)%Z)
      else None
  end.
Proof.
  rewrite register_eq. unfold match_. cbn [routes index].
  rewrite match_from_snoc. destruct (match_from 0 (routes r) _ m p);
    [reflexivity|].
  cbn [Nat.add]. destruct (candidate (route_of g) m p) eqn:Hc.
  - apply candidate_route_of in Hc. now rewrite decide_True.
  - rewrite decide_False; [reflexivity|].
    intros Hk. apply candidate_route_of in Hk. congruence.
Qed.

(** *** One dispatch, in order *)

(** X2. When the first unvisited route with the request's method and
    path sits exactly at the current index, [ServeHTTP] answers with
    that route's handler, marks the route visited, advances the index
    and records no diagnostic. *)
Theorem in_order_request_served (r : Router) (w : http.ResponseWriter)
    (req : http.Request) (i : nat) (rte : route) :
  routes r !! i = Some rte ->
  visited rte = false ->
  route_key rte = req_key req ->
  (forall j rj, j < i -> routes r !! j = Some rj ->
     visited rj = true \/ route_key rj <> req_key req) ->
  Z.of_nat i = index r ->
  ServeHTTP r w req =
    ({| routes := <[i := mark_visited rte]> (routes r);
        index := wrap_int (index r + 1);
        errors := errors r |},
     handler rte w req).
Proof.
  intros Hi Hv Hkey Hbefore Heq.
  assert (match_ r (http.Method req) (url.Path (http.URL req)) =
          Some (i, true)) as Hm.
  { apply match_Some. injection Hkey as Hkm Hkp. split.
    - split; [now exists rte | exact Hbefore].
    - symmetry. now apply Z.eqb_eq. }
  rewrite (ServeHTTP_matched r w req i true rte Hm Hi).
  now rewrite app_nil_r.
Qed.

Lemma in_order_request_served_witness :
  Z.of_nat 0 = index two_routes /\
  ServeHTTP two_routes httptest.NewRecorder (NewRequest "GET" "/foo") =
    ({| routes := <[0 := mark_visited
                          (route_of (Resp "GET" "/foo" 200 EmptyString))]>
                    (routes two_routes);
        index := wrap_int (index two_routes + 1);
        errors := errors two_routes |},
     handler (route_of (Resp "GET" "/foo" 200 EmptyString))
       httptest.NewRecorder (NewRequest "GET" "/foo")).
Proof.
  split; [reflexivity|].
  apply (in_order_request_served two_routes httptest.NewRecorder
           (NewRequest "GET" "/foo") 0
           (route_of (Resp "GET" "/foo" 200 EmptyString))).
  - reflexivity.
  - reflexivity.
  - reflexivity.
  - intros j rj Hj. lia.
  - reflexivity.
Defined.

(** *** Routes waiting for a request *)

Lemma pending_app (rs1 rs2 : list route) (m p : string) :
  pending (rs1 ++ rs2) m p = pending rs1 m p + pending rs2 m p.
Proof. unfold pending. now rewrite List.filter_app, length_app. Qed.

Lemma pending_cons (rte : route) (rs : list route) (m p : string) :
  pending (rte :: rs) m p =
  (if candidate rte m p then 1 else 0) + pending rs m p.
Proof.
  unfold pending. cbn [List.filter]. now destruct (candidate rte m p).
Qed.

Lemma candidate_mark_visited (x : route) (m p : string) :
  candidate (mark_visited x) m p = false.
Proof. reflexivity. Qed.

Lemma pending_mark (rs : list route) (k : nat) (x : route) (m p : string) :
  rs !! k = Some x ->
  pending (<[k := mark_visited x]> rs) m p =
  pending rs m p - (if candidate x m p then 1 else 0).
Proof.
  intros Hk. rewrite <- (take_drop_middle rs k x Hk) at 2.
  rewrite <- (take_drop_middle rs k x Hk) at 1.
  assert (length (take k rs) = k) as Hlen.
  { rewrite length_take. apply lookup_lt_Some in Hk. lia. }
  rewrite <- Hlen at 1. rewrite insert_middle, !pending_app, !pending_cons.
  rewrite candidate_mark_visited. destruct (candidate x m p); lia.
Qed.

Lemma match_from_None_pending (rs : list route) (i : nat) (idx : Z)
    (m p : string) :
  match_from i rs idx m p = None <-> pending rs m p = 0.
Proof.
  revert i. induction rs as [|rte rs IH]; intros i.
  - split; reflexivity.
  - rewrite match_from_unfold, pending_cons.
    destruct (candidate rte m p).
    + split; [discriminate | cbn; lia].
    + rewrite IH. cbn. reflexivity.
Qed.

Lemma candidate_key (x : route) (m p : string) :
  visited x = false ->
  candidate x m p = true <-> route_key x = (m, p).
Proof.
  intros Hv. rewrite candidate_true. unfold route_key. split.
  - intros (_ & -> & ->). reflexivity.
  - intros [= -> ->]. now repeat split.
Qed.

(** X4. A dispatch uses up exactly one of the routes waiting for its own
    method and path (none when none is waiting) and never a route that
    waits for another method or path. *)
Theorem dispatch_consumes_one_pending (r : Router) (w : http.ResponseWriter)
    (req : http.Request) (m p : string) :
  pending (routes (ServeHTTP r w req).1) m p =
  pending (routes r) m p - (if decide (req_key req = (m, p)) then 1 else 0).
Proof.
  destruct (ServeHTTP_cases r w req)
    as [[Hnone ->]|(k & b & x & _ & Hk & Hv & Hkey & ->)]; cbn [fst routes].
  - destruct (decide (req_key req = (m, p))) as [[= <- <-]|_]; [|lia].
    apply match_from_None_pending in Hnone. rewrite Hnone. reflexivity.
  - rewrite (pending_mark _ _ _ _ _ Hk).
    destruct (candidate x m p) eqn:Hc.
    + apply (candidate_key x m p Hv) in Hc.
      rewrite decide_True; [reflexivity|].
      unfold req_key. congruence.
    + rewrite decide_False; [reflexivity|].
      intros Heq. apply not_true_iff_false in Hc. apply Hc.
      apply (candidate_key x m p Hv). unfold req_key in Heq. congruence.
Qed.

(** X5. A route answers one request only: when at most one route is
    waiting for the method and path of a request, dispatching that
    request a second time finds nothing, so the second response is the
    404 and an ["Unexpected request"] diagnostic is recorded. *)
Theorem route_serves_one_request (r : Router) (w w' : http.ResponseWriter)
    (req : http.Request) :
  pending (routes r) (http.Method req) (url.Path (http.URL req)) <= 1 ->
  let r1 := (ServeHTTP r w req).1 in
  ServeHTTP r1 w' req =
    ({| routes := routes r1; index := wrap_int (index r1 + 1);
        errors := errors r1 ++
          ["Unexpected request: " +:+ http.Method req +:+ " " +:+
           url.Path (http.URL req)] |},
     w' ++ [http.CallWriteHeader 404;
            http.CallWrite ("404 page not found" +:+ fmt.newline)]).
Proof.
  intros Hle r1. rewrite <- (NotFound_calls w' req).
  apply ServeHTTP_unmatched. apply match_from_None_pending. unfold r1.
  destruct (ServeHTTP_cases r w req)
    as [[Hnone ->]|(k & b & x & _ & Hk & Hv & Hkey & ->)]; cbn [fst routes].
  - now apply match_from_None_pending in Hnone.
  - rewrite (pending_mark _ _ _ _ _ Hk).
    apply (candidate_key x _ _ Hv) in Hkey. rewrite Hkey. lia.
Qed.

Lemma route_serves_one_request_witness :
  pending (routes two_routes) "GET" "/foo" <= 1 /\
  httptest.Code
    (ServeHTTP
       (ServeHTTP two_routes httptest.NewRecorder (NewRequest "GET" "/foo")).1
       httptest.NewRecorder (NewRequest "GET" "/foo")).2 = 404%Z.
Proof.
  assert (pending (routes two_routes) "GET" "/foo" <= 1) as Hle
    by (vm_compute; lia).
  split; [exact Hle|].
  rewrite (route_serves_one_request two_routes httptest.NewRecorder
             httptest.NewRecorder (NewRequest "GET" "/foo") Hle).
  reflexivity.
Defined.

(** *** Diagnostics are never taken back *)

Lemma ServeHTTP_errors_prefix (r : Router) (w : http.ResponseWriter)
    (req : http.Request) :
  errors r `prefix_of` errors (ServeHTTP r w req).1.
Proof.
  destruct (step_errors r (OpServeHTTP w req)) as [added Hadded].
  cbn [step] in Hadded. rewrite Hadded. now exists added.
Qed.

Lemma serve_all_errors_prefix
    (calls : list (http.ResponseWriter * http.Request)) (r : Router) :
  errors r `prefix_of` errors (serve_all r calls).1.
Proof.
  revert r. induction calls as [|[w req] calls IH]; intros r.
  - reflexivity.
  - cbn [serve_all]. pose proof (ServeHTTP_errors_prefix r w req) as H1.
    destruct (ServeHTTP r w req) as [r1 w1]. specialize (IH r1).
    destruct (serve_all r1 calls) as [r2 ws]. cbn [fst] in *.
    now transitivity (errors r1).
Qed.

Lemma run_errors_prefix (ops : list op) (r : Router) :
  errors r `prefix_of` errors (run r ops).
Proof.
  unfold run. revert r. induction ops as [|o ops IH]; intros r.
  - reflexivity.
  - cbn [foldl]. transitivity (errors (step r o)); [|apply IH].
    destruct (step_errors r o) as [added ->]. now exists added.
Qed.

(** X6. A recorded diagnostic is final: once the errors are not empty,
    whatever is registered, dispatched or asserted afterwards,
    [AssertVisited] returns false and fails the test. *)
Theorem failure_is_permanent (r : Router) (ops : list op) (t : testing.T) :
  errors r <> [] ->
  (AssertVisited (run r ops) t).2 = false /\
  testing.Failed (AssertVisited (run r ops) t).1.2 = true.
Proof.
  intros Hne. destruct (run_errors_prefix ops r) as [added Hadded].
  rewrite AssertVisited_eq. cbn [fst snd]. rewrite Error_failed, Hadded.
  destruct (errors r) as [|msg msgs]; [congruence|].
  cbn. split; [reflexivity | apply orb_true_r].
Qed.

Lemma failure_is_permanent_witness :
  errors scenarioB.1 <> [] /\
  (AssertVisited
     (run scenarioB.1
        [OpRegisterResp "PUT" "/foo" 202 EmptyString;
         OpServeHTTP httptest.NewRecorder (NewRequest "PUT" "/foo")])
     testing.new).2 = false.
Proof.
  assert (errors scenarioB.1 <> []) as Hne by (vm_compute; discriminate).
  split; [exact Hne|].
  apply (failure_is_permanent scenarioB.1
           [OpRegisterResp "PUT" "/foo" 202 EmptyString;
            OpServeHTTP httptest.NewRecorder (NewRequest "PUT" "/foo")]
           testing.new Hne).
Defined.

(** *** What the index and the routes count *)

Lemma step_routes_length (r : Router) (o : op) :
  length (routes (step r o)) =
  length (routes r) + (if is_registration o then 1 else 0).
Proof.
  destruct o as [m p h|m p status body|w req|t];
    cbn [step is_registration].
  - cbn. rewrite length_app. reflexivity.
  - cbn. rewrite length_app. reflexivity.
  - destruct (ServeHTTP_cases r w req)
      as [[_ ->]|(i & b & rte & _ & _ & _ & _ & ->)]; cbn [fst routes].
    + lia.
    + rewrite length_insert. lia.
  - rewrite AssertVisited_eq. cbn. lia.
Qed.

Lemma run_counts_from (ops : list op) (r : Router) :
  (0 <= index r)%Z ->
  (index r + Z.of_nat (dispatches ops) <= int_max)%Z ->
  index (run r ops) = (index r + Z.of_nat (dispatches ops))%Z /\
  length (routes (run r ops)) = length (routes r) + registrations ops.
Proof.
  unfold run, dispatches, registrations. revert r.
  induction ops as [|o ops IH]; intros r Hpos Hmax.
  - cbn. split; lia.
  - cbn [foldl List.filter] in *.
    pose proof (step_index r o) as Hidx.
    pose proof (step_routes_length r o) as Hlen.
    destruct (is_dispatch o) eqn:Hd.
    + cbn [length] in *.
      rewrite wrap_int_succ in Hidx by (unfold int_min; lia).
      destruct (IH (step r o)) as [H1 H2]; [lia | lia |].
      rewrite H1, H2, Hidx, Hlen.
      destruct o; try discriminate Hd. cbn. split; lia.
    + destruct (IH (step r o)) as [H1 H2]; [lia | lia |].
      rewrite H1, H2, Hidx, Hlen.
      destruct (is_registration o); cbn [length]; split; lia.
Qed.

(** X7. On a router that started as [Router{}], the index is the number
    of [ServeHTTP] calls made so far (as long as that number fits an
    [int]) and the number of routes is the number of registrations:
    [AssertVisited] and registrations never move the index, dispatches
    and [AssertVisited] never add or drop a route. *)
Theorem run_counts (ops : list op) :
  (Z.of_nat (dispatches ops) <= int_max)%Z ->
  index (run new_Router ops) = Z.of_nat (dispatches ops) /\
  length (routes (run new_Router ops)) = registrations ops.
Proof.
  intros Hmax.
  destruct (run_counts_from ops new_Router) as [H1 H2]; cbn; [lia | lia |].
  rewrite H1, H2. cbn. split; lia.
Qed.

Lemma run_counts_witness :
  let ops := [OpRegisterResp "GET" "/foo" 200 EmptyString;
              OpServeHTTP httptest.NewRecorder (NewRequest "PUT" "/foo");
              OpAssertVisited testing.new;
              OpServeHTTP httptest.NewRecorder (NewRequest "GET" "/foo")] in
  (Z.of_nat (dispatches ops) <= int_max)%Z /\
  index (run new_Router ops) = 2%Z /\
  length (routes (run new_Router ops)) = 1.
Proof.
  intros ops.
  assert (Z.of_nat (dispatches ops) <= int_max)%Z as Hmax
    by (change (dispatches ops) with 2; unfold int_max; lia).
  split; [exact Hmax|].
  exact (run_counts ops Hmax).
Defined.

(** *** Success implies the registered order *)

Lemma lookup_app_length_inv {A : Type} (l1 l2 : list A) (x : A) :
  (l1 ++ l2) !! length l1 = Some x -> exists l2', l2 = x :: l2'.
Proof.
  rewrite lookup_app_r by lia. rewrite Nat.sub_diag.
  destruct l2 as [|y l2]; [discriminate|].
  intros [= ->]. now exists l2.
Qed.

Lemma serve_all_clean (calls : list (http.ResponseWriter * http.Request))
    (pre suf : list route) :
  Forall (fun x => visited x = true) pre ->
  Forall (fun x => visited x = false) suf ->
  (Z.of_nat (length pre + length suf) <= int_max)%Z ->
  errors (serve_all {| routes := pre ++ suf;
                       index := Z.of_nat (length pre);
                       errors := [] |} calls).1 = [] ->
  exists served rest,
    suf = served ++ rest /\
    map (fun c => req_key c.2) calls = map route_key served /\
    routes (serve_all {| routes := pre ++ suf;
                         index := Z.of_nat (length pre);
                         errors := [] |} calls).1 =
    pre ++ map mark_visited served ++ rest.
Proof.
  revert pre suf.
  induction calls as [|[w req] calls IH]; intros pre suf Hpre Hsuf Hlen Hclean.
  - exists [], suf. now repeat split.
  - cbn [serve_all] in *.
    set (r0 := {| routes := pre ++ suf; index := Z.of_nat (length pre);
                  errors := [] |}) in *.
    destruct (ServeHTTP r0 w req) as [r1 w1] eqn:Hserve.
    pose proof (serve_all_errors_prefix calls r1) as Hpfx.
    destruct (serve_all r1 calls) as [r2 ws] eqn:Hrest.
    cbn [fst] in *. rewrite Hclean in Hpfx. apply prefix_nil_inv in Hpfx.
    destruct (match_ r0 (http.Method req) (url.Path (http.URL req)))
      as [[i b]|] eqn:Hm.
    + pose proof Hm as Hm'.
      apply match_Some in Hm' as [[(x & Hi & Hv & Hkm & Hkp) Hbefore] Hb].
      rewrite (ServeHTTP_matched r0 w req i b x Hm Hi) in Hserve.
      injection Hserve as <- <-. cbn [errors routes index r0] in *.
      destruct b; [|discriminate Hpfx].
      symmetry in Hb. apply Z.eqb_eq, Nat2Z.inj in Hb. subst i.
      destruct (lookup_app_length_inv pre suf x Hi) as [suf' ->].
      apply Forall_cons in Hsuf as [_ Hsuf]. cbn [length] in Hlen.
      rewrite insert_middle, wrap_int_succ in Hrest
        by (unfold int_min; lia).
      replace (Z.of_nat (length pre) + 1)%Z
        with (Z.of_nat (length (pre ++ [mark_visited x]))) in Hrest
        by (rewrite length_app; cbn; lia).
      replace (pre ++ mark_visited x :: suf')
        with ((pre ++ [mark_visited x]) ++ suf') in Hrest
        by now rewrite <- app_assoc.
      destruct (IH (pre ++ [mark_visited x]) suf')
        as (served & rest & H1 & H2 & H3).
      * apply Forall_app. split; [exact Hpre | now repeat constructor].
      * exact Hsuf.
      * rewrite length_app. cbn [length]. lia.
      * now rewrite Hrest.
      * exists (x :: served), rest. rewrite Hrest in H3. cbn [fst] in H3.
        split; [now rewrite H1|]. split.
        -- cbn [map snd]. rewrite H2. f_equal.
           unfold req_key, route_key. now rewrite Hkm, Hkp.
        -- rewrite H3, <- app_assoc. reflexivity.
    + rewrite (ServeHTTP_unmatched r0 w req Hm) in Hserve.
      injection Hserve as <- <-. discriminate Hpfx.
Qed.

(** X3. [AssertVisited] succeeds only on the registered order: on a
    router that started as [Router{}], was given its routes and then
    served requests, a true result means that the requests had exactly
    the registered (method, path) pairs, one request per route, in the
    order of registration. *)
Theorem success_only_in_order (regs : list registration)
    (calls : list (http.ResponseWriter * http.Request)) (t : testing.T) :
  (Z.of_nat (length regs) <= int_max)%Z ->
  (AssertVisited (serve_all (register_all new_Router regs) calls).1 t).2
    = true ->
  map (fun c => req_key c.2) calls = map reg_key regs.
Proof.
  intros Hlen. rewrite AssertVisited_eq. cbn [snd]. intros Hok.
  assert (errors (serve_all (register_all new_Router regs) calls).1 ++
          unvisited_diagnostics
            (routes (serve_all (register_all new_Router regs) calls).1) = [])
    as Hnil.
  { destruct (_ ++ _); [reflexivity | discriminate Hok]. }
  apply app_eq_nil in Hnil as [Herr Hvis].
  apply unvisited_diagnostics_nil in Hvis.
  rewrite register_all_eq in *. cbn [routes index errors new_Router app] in *.
  pose proof (route_of_unvisited regs) as Hun.
  destruct (serve_all_clean calls [] (map route_of regs))
    as (served & rest & H1 & H2 & H3).
  - constructor.
  - exact Hun.
  - cbn [length Nat.add]. now rewrite length_map.
  - exact Herr.
  - cbn [app length] in H3. change (Z.of_nat 0) with 0%Z in H3.
    rewrite H3 in Hvis. apply Forall_app in Hvis as [_ Hrest].
    rewrite H1 in Hun. apply Forall_app in Hun as [_ Hun].
    assert (rest = []) as ->.
    { destruct rest as [|y rest]; [reflexivity|].
      apply Forall_cons in Hrest as [Hy _]. apply Forall_cons in Hun as [Hy' _].
      congruence. }
    rewrite app_nil_r in H1. rewrite H2, <- H1, <- list_fmap_compose.
    apply list_fmap_ext. intros i g _. apply route_of_key.
Qed.

Lemma success_only_in_order_witness :
  (Z.of_nat (length registrationsA) <= int_max)%Z /\
  (AssertVisited
     (serve_all (register_all new_Router registrationsA)
        (fresh_calls requests)).1 testing.new).2 = true /\
  map (fun c => req_key c.2) (fresh_calls requests) =
    map reg_key registrationsA.
Proof.
  assert (Z.of_nat (length registrationsA) <= int_max)%Z as Hlen
    by (unfold int_max; simpl; lia).
  split; [exact Hlen|]. split; [reflexivity|].
  apply (success_only_in_order registrationsA (fresh_calls requests)
           testing.new Hlen).
  reflexivity.
Defined.

(** *** The responses of an in-order run *)

Lemma serve_all_in_order_responses (suf pre : list route)
    (errs : list string)
    (calls : list (http.ResponseWriter * http.Request)) :
  Forall (fun x => visited x = true) pre ->
  Forall (fun x => visited x = false) suf ->
  map (fun c => req_key c.2) calls = map route_key suf ->
  (Z.of_nat (length pre + length suf) <= int_max)%Z ->
  (serve_all {| routes := pre ++ suf; index := Z.of_nat (length pre);
                errors := errs |} calls).2 =
  zip_with (fun rte c => handler rte c.1 c.2) suf calls.
Proof.
  revert pre calls.
  induction suf as [|rte suf IH]; intros pre calls Hpre Hsuf Hkeys Hlen.
  - destruct calls; [reflexivity | discriminate].
  - destruct calls as [|[w req] calls]; [discriminate|].
    cbn [map snd] in Hkeys. injection Hkeys as Hm Hp Hkeys.
    apply Forall_cons in Hsuf as [Hv Hsuf].
    cbn [serve_all length zip_with fst snd] in *.
    rewrite (ServeHTTP_matched _ w req (length pre) true rte).
    + cbn [routes index errors]. rewrite app_nil_r.
      rewrite wrap_int_succ by (unfold int_min; lia).
      rewrite insert_middle.
      specialize (IH (pre ++ [mark_visited rte]) calls).
      rewrite length_app, <- app_assoc in IH. cbn [length app] in IH.
      replace (Z.of_nat (length pre) + 1)%Z
        with (Z.of_nat (length pre + 1)) by lia.
      destruct (serve_all _ calls) as [r2 ws] eqn:Hserve. cbn [snd] in *.
      rewrite IH; [reflexivity| | exact Hsuf | exact Hkeys | lia].
      apply Forall_app. split; [exact Hpre | now repeat constructor].
    + rewrite (match_in_order pre suf rte _ _ _ _ Hpre Hv)
        by (unfold route_key; congruence).
      now rewrite Z.eqb_refl.
    + cbn [routes]. now rewrite list_lookup_middle.
Qed.

(** X8. In a run that dispatches the registered (method, path) pairs in
    the registered order on a router that started as [Router{}], the
    n-th request is answered by the handler registered n-th, applied
    to that request and its writer. *)
Theorem in_order_responses (regs : list registration)
    (calls : list (http.ResponseWriter * http.Request)) :
  (Z.of_nat (length regs) <= int_max)%Z ->
  map (fun c => req_key c.2) calls = map reg_key regs ->
  (serve_all (register_all new_Router regs) calls).2 =
  zip_with (fun g c => handler (route_of g) c.1 c.2) regs calls.
Proof.
  intros Hlen Hkeys. rewrite register_all_eq.
  cbn [routes index errors new_Router app].
  pose proof (serve_all_in_order_responses (map route_of regs) [] [] calls)
    as H.
  cbn [app length Nat.add] in H. rewrite length_map in H.
  change (Z.of_nat 0) with 0%Z in H. rewrite H.
  - now rewrite zip_with_fmap_l.
  - constructor.
  - apply route_of_unvisited.
  - rewrite Hkeys, <- list_fmap_compose. apply list_fmap_ext.
    intros i g _. symmetry. apply route_of_key.
  - exact Hlen.
Qed.

Lemma in_order_responses_witness :
  (Z.of_nat (length registrationsA) <= int_max)%Z /\
  map httptest.Code scenarioA.2 = [200; 201; 202]%Z.
Proof.
  assert (Z.of_nat (length registrationsA) <= int_max)%Z as Hlen
    by (unfold int_max; simpl; lia).
  split; [exact Hlen|]. unfold scenarioA.
  rewrite (in_order_responses registrationsA (fresh_calls requests) Hlen);
    reflexivity.
Defined.

(** *** A stray request shifts the index *)

Lemma serve_all_shifted (suf pre : list route) (errs : list string)
    (calls : list (http.ResponseWriter * http.Request)) (d : Z) :
  Forall (fun x => visited x = true) pre ->
  Forall (fun x => visited x = false) suf ->
  map (fun c => req_key c.2) calls = map route_key suf ->
  (0 < d)%Z ->
  (Z.of_nat (length pre + length suf) + d <= int_max)%Z ->
  (serve_all {| routes := pre ++ suf; index := Z.of_nat (length pre) + d;
                errors := errs |} calls).1 =
  {| routes := pre ++ map mark_visited suf;
     index := Z.of_nat (length pre + length suf) + d;
     errors := errs ++
       map (fun rte => out_of_order_msg (method rte) (path rte)) suf |}.
Proof.
  revert pre errs calls.
  induction suf as [|rte suf IH]; intros pre errs calls Hpre Hsuf Hkeys Hd Hlen.
  - destruct calls; [|discriminate]. cbn.
    now rewrite Nat.add_0_r, !app_nil_r.
  - destruct calls as [|[w req] calls]; [discriminate|].
    cbn [map snd] in Hkeys. injection Hkeys as Hm Hp Hkeys.
    apply Forall_cons in Hsuf as [Hv Hsuf].
    cbn [serve_all length] in *.
    rewrite (ServeHTTP_matched _ w req (length pre) false rte).
    + cbn [routes index errors].
      rewrite wrap_int_succ by (unfold int_min; lia).
      rewrite insert_middle.
      specialize (IH (pre ++ [mark_visited rte])
                    (errs ++ [out_of_order_msg (http.Method req)
                                (url.Path (http.URL req))]) calls).
      rewrite length_app, <- app_assoc in IH. cbn [length app] in IH.
      replace (Z.of_nat (length pre) + d + 1)%Z
        with (Z.of_nat (length pre + 1) + d)%Z by lia.
      destruct (serve_all _ calls) as [r2 ws] eqn:Hserve. cbn [fst] in *.
      rewrite IH; [| | exact Hsuf | exact Hkeys | exact Hd | lia].
      * rewrite <- !app_assoc. cbn [map app]. rewrite Hm, Hp.
        do 2 f_equal. lia.
      * apply Forall_app. split; [exact Hpre | now repeat constructor].
    + rewrite (match_in_order pre suf rte _ _ _ _ Hpre Hv)
        by (unfold route_key; congruence).
      do 2 f_equal. apply Z.eqb_neq. lia.
    + cbn [routes]. now rewrite list_lookup_middle.
Qed.

Lemma serve_all_shifted_responses (suf pre : list route)
    (errs : list string)
    (calls : list (http.ResponseWriter * http.Request)) (d : Z) :
  Forall (fun x => visited x = true) pre ->
  Forall (fun x => visited x = false) suf ->
  map (fun c => req_key c.2) calls = map route_key suf ->
  (0 < d)%Z ->
  (Z.of_nat (length pre + length suf) + d <= int_max)%Z ->
  (serve_all {| routes := pre ++ suf; index := Z.of_nat (length pre) + d;
                errors := errs |} calls).2 =
  zip_with (fun rte c => handler rte c.1 c.2) suf calls.
Proof.
  revert pre errs calls.
  induction suf as [|rte suf IH]; intros pre errs calls Hpre Hsuf Hkeys Hd Hlen.
  - destruct calls; [reflexivity | discriminate].
  - destruct calls as [|[w req] calls]; [discriminate|].
    cbn [map snd] in Hkeys. injection Hkeys as Hm Hp Hkeys.
    apply Forall_cons in Hsuf as [Hv Hsuf].
    cbn [serve_all length zip_with fst snd] in *.
    rewrite (ServeHTTP_matched _ w req (length pre) false rte).
    + cbn [routes index errors].
      rewrite wrap_int_succ by (unfold int_min; lia).
      rewrite insert_middle.
      specialize (IH (pre ++ [mark_visited rte])
                    (errs ++ [out_of_order_msg (http.Method req)
                                (url.Path (http.URL req))]) calls).
      rewrite length_app, <- app_assoc in IH. cbn [length app] in IH.
      replace (Z.of_nat (length pre) + d + 1)%Z
        with (Z.of_nat (length pre + 1) + d)%Z by lia.
      destruct (serve_all _ calls) as [r2 ws] eqn:Hserve. cbn [snd] in *.
      rewrite IH; [reflexivity| | exact Hsuf | exact Hkeys | exact Hd | lia].
      apply Forall_app. split; [exact Hpre | now repeat constructor].
    + rewrite (match_in_order pre suf rte _ _ _ _ Hpre Hv)
        by (unfold route_key; congruence).
      do 2 f_equal. apply Z.eqb_neq. lia.
    + cbn [routes]. now rewrite list_lookup_middle.
Qed.

(** X9. The index advances on unmatched requests too: when a request
    that matches no route arrives first and the registered requests
    follow in the registered order, the stray request gets the 404 and
    every registered request is still answered by its own handler and
    its route visited, but each is reported out of order, after the
    diagnostic of the stray request. *)
Theorem stray_request_shifts (regs : list registration)
    (calls : list (http.ResponseWriter * http.Request))
    (w0 : http.ResponseWriter) (stray : http.Request) :
  (Z.of_nat (length regs) < int_max)%Z ->
  (forall g, g ∈ regs -> reg_key g <> req_key stray) ->
  map (fun c => req_key c.2) calls = map reg_key regs ->
  let r := (serve_all (register_all new_Router regs)
              ((w0, stray) :: calls)).1 in
  let ws := (serve_all (register_all new_Router regs)
               ((w0, stray) :: calls)).2 in
  ws = (w0 ++ [http.CallWriteHeader 404;
               http.CallWrite ("404 page not found" +:+ fmt.newline)])
       :: zip_with (fun g c => handler (route_of g) c.1 c.2) regs calls /\
  errors r =
    ("Unexpected request: " +:+ http.Method stray +:+ " " +:+
     url.Path (http.URL stray)) ::
    map (fun g => "Request out of order: " +:+ (reg_key g).1 +:+ " " +:+
                  (reg_key g).2) regs /\
  routes r = map mark_visited (routes (register_all new_Router regs)) /\
  Forall (fun rte => visited rte = true) (routes r) /\
  index r = (Z.of_nat (length regs) + 1)%Z.
Proof.
  intros Hlen Hstray Hkeys r ws. unfold r, ws. clear r ws.
  rewrite register_all_eq. cbn [routes index errors new_Router app serve_all].
  rewrite ServeHTTP_unmatched.
  - cbn [routes index errors app]. rewrite NotFound_calls.
    pose proof (serve_all_shifted (map route_of regs) []
                  [unexpected_msg (http.Method stray)
                     (url.Path (http.URL stray))] calls 1) as H.
    pose proof (serve_all_shifted_responses (map route_of regs) []
                  [unexpected_msg (http.Method stray)
                     (url.Path (http.URL stray))] calls 1) as Hws.
    cbn [app length Nat.add] in H, Hws. rewrite length_map in H, Hws.
    change (Z.of_nat 0 + 1)%Z with 1%Z in H, Hws.
    rewrite wrap_int_small by (unfold int_min, int_max; lia).
    change (0 + 1)%Z with 1%Z.
    assert (map (fun c => req_key c.2) calls =
            map route_key (map route_of regs)) as Hkeys'.
    { rewrite Hkeys, <- list_fmap_compose. apply list_fmap_ext.
      intros i g _. symmetry. apply route_of_key. }
    destruct (serve_all _ calls) as [r2 ws]. cbn [fst snd] in *.
    rewrite H, Hws;
      [|constructor|apply route_of_unvisited|exact Hkeys'|lia|lia
       |constructor|apply route_of_unvisited|exact Hkeys'|lia|lia].
    cbn [errors routes index app].
    split; [now rewrite zip_with_fmap_l|].
    split; [|split; [reflexivity|split; [|reflexivity]]].
    + f_equal. rewrite <- list_fmap_compose. apply list_fmap_ext.
      intros i g _. now destruct g.
    + apply Forall_fmap, Forall_forall. reflexivity.
  - apply match_None. cbn [routes]. intros rte Hin. right.
    apply list_elem_of_fmap in Hin as (g & -> & Hg).
    change (route_key (route_of g) <> req_key stray).
    rewrite route_of_key. now apply Hstray.
Qed.

Lemma stray_request_shifts_witness :
  (Z.of_nat (length registrationsB) < int_max)%Z /\
  map httptest.Code
    (serve_all (register_all new_Router registrationsB)
       ((httptest.NewRecorder, NewRequest "PUT" "/foo")
        :: fresh_calls [NewRequest "GET" "/foo"; NewRequest "GET" "/bar"])).2
  = [404; 200; 201]%Z /\
  errors
    (serve_all (register_all new_Router registrationsB)
       ((httptest.NewRecorder, NewRequest "PUT" "/foo")
        :: fresh_calls [NewRequest "GET" "/foo"; NewRequest "GET" "/bar"])).1
  = ["Unexpected request: PUT /foo"; "Request out of order: GET /foo";
     "Request out of order: GET /bar"].
Proof.
  assert (Z.of_nat (length registrationsB) < int_max)%Z as Hlen
    by (unfold int_max; simpl; lia).
  split; [exact Hlen|].
  destruct (stray_request_shifts registrationsB
              (fresh_calls [NewRequest "GET" "/foo"; NewRequest "GET" "/bar"])
              httptest.NewRecorder (NewRequest "PUT" "/foo") Hlen)
    as (Hws & Herr & _).
  - intros g Hg. vm_compute in Hg.
    repeat (apply elem_of_cons in Hg as [->|Hg]; [discriminate|]).
    inversion Hg.
  - reflexivity.
  - rewrite Hws, Herr. split; reflexivity.
Defined.

(** *** The index of a router in use *)

Lemma visited_le_index_step (r : Router) (o : op) :
  index_bounded r ->
  (Z.of_nat (visited_count (routes r)) <= index r)%Z ->
  (Z.of_nat (size_of (step r o)) <= int_max)%Z ->
  (Z.of_nat (visited_count (routes (step r o))) <= index (step r o))%Z.
Proof.
  unfold index_bounded, size_of. intros Hinv Hlow Hsize.
  destruct o as [m p h|m p status body|w req|t]; cbn [step] in *.
  - cbn [RegisterFunc routes index errors] in *.
    rewrite visited_count_app. cbn. lia.
  - cbn [RegisterResp routes index errors] in *.
    rewrite visited_count_app. cbn. lia.
  - pose proof (visited_count_le (routes r)) as Hvc.
    destruct (ServeHTTP_cases r w req)
      as [[_ Heq]|(k & b & x & _ & Hk & Hv & _ & Heq)];
      rewrite Heq in *; cbn [fst routes index errors] in *.
    + rewrite length_app in *. cbn [length] in *.
      rewrite wrap_int_succ by (unfold int_min; lia). lia.
    + pose proof (visited_count_le (<[k := mark_visited x]> (routes r)))
        as Hvc'.
      rewrite (visited_count_mark _ _ _ Hk Hv) in *.
      rewrite length_app, length_insert in *.
      destruct b; cbn [length] in *;
        (rewrite wrap_int_succ by (unfold int_min; lia)); lia.
  - rewrite AssertVisited_eq in *. cbn [fst routes index errors] in *. lia.
Qed.

Lemma index_between_run (ops : list op) (r : Router) :
  index_bounded r ->
  (Z.of_nat (visited_count (routes r)) <= index r)%Z ->
  (Z.of_nat (size_of (run r ops)) <= int_max)%Z ->
  index_bounded (run r ops) /\
  (Z.of_nat (visited_count (routes (run r ops))) <= index (run r ops))%Z.
Proof.
  unfold run. revert r.
  induction ops as [|o ops IH]; intros r Hinv Hlow Hsize.
  - now split.
  - cbn [foldl] in *.
    pose proof (run_size ops (step r o)) as Hmono. unfold run in Hmono.
    apply IH; [| |exact Hsize].
    + apply index_bounded_step; [exact Hinv | lia].
    + apply visited_le_index_step; [exact Hinv | exact Hlow | lia].
Qed.

(** X10. On a router that started as [Router{}] and is used through the
    exported calls, every visited route accounts for one dispatch and
    every dispatch for a visited route or a diagnostic: the index lies
    between the number of visited routes and that number plus the
    number of diagnostics.  This holds as long as the routes and the
    diagnostics together number at most [int_max], and then
    [r.index++] has never wrapped around. *)
Theorem index_between_visited_and_diagnostics (ops : list op) :
  let r := run new_Router ops in
  (Z.of_nat (size_of r) <= int_max)%Z ->
  (Z.of_nat (visited_count (routes r)) <= index r
   <= Z.of_nat (visited_count (routes r) + length (errors r)))%Z.
Proof.
  intros r Hsize.
  destruct (index_between_run ops new_Router) as [Hup Hlow].
  - unfold index_bounded. cbn. lia.
  - cbn. lia.
  - exact Hsize.
  - unfold index_bounded in Hup. fold r in Hup, Hlow. lia.
Qed.

Lemma index_between_visited_and_diagnostics_witness :
  let ops := [OpRegisterResp "GET" "/foo" 200 EmptyString;
              OpServeHTTP httptest.NewRecorder (NewRequest "PUT" "/foo");
              OpServeHTTP httptest.NewRecorder (NewRequest "GET" "/foo")] in
  (Z.of_nat (size_of (run new_Router ops)) <= int_max)%Z /\
  (Z.of_nat (visited_count (routes (run new_Router ops)))
   <= index (run new_Router ops)
   <= Z.of_nat (visited_count (routes (run new_Router ops)) +
                length (errors (run new_Router ops))))%Z.
Proof.
  intros ops.
  assert (Z.of_nat (size_of (run new_Router ops)) <= int_max)%Z as Hsize
    by (change (size_of (run new_Router ops)) with 3; unfold int_max; lia).
  split; [exact Hsize|].
  exact (index_between_visited_and_diagnostics ops Hsize).
Defined.

(** *** Whose handler answers *)

(** X11. A request is never answered by the handler of a route with
    another method or path, nor by a route already visited: the
    response is either the 404 (exactly when no route is waiting for
    the method and path, and then no route is touched), or the output of
    the handler of an unvisited route registered for that method and
    path. *)
Theorem response_from_matching_route (r : Router) (w : http.ResponseWriter)
    (req : http.Request) :
  (pending (routes r) (http.Method req) (url.Path (http.URL req)) = 0 /\
   (ServeHTTP r w req).2 = httplib.NotFound w req /\
   routes (ServeHTTP r w req).1 = routes r) \/
  (pending (routes r) (http.Method req) (url.Path (http.URL req)) <> 0 /\
   exists i rte,
     routes r !! i = Some rte /\ visited rte = false /\
     route_key rte = req_key req /\
     (ServeHTTP r w req).2 = handler rte w req).
Proof.
  destruct (ServeHTTP_cases r w req)
    as [[Hnone ->]|(k & b & x & Hfirst & Hk & Hv & Hkey & ->)]; cbn [fst snd].
  - left. apply match_from_None_pending in Hnone. now repeat split.
  - right. split.
    + intros Hzero. apply (match_from_None_pending _ 0 (index r)) in Hzero.
      assert (match_ r (http.Method req) (url.Path (http.URL req)) =
              Some (k, (Z.of_nat k =? index r)%Z)) as Hsome
        by now apply match_Some.
      unfold match_ in Hsome. congruence.
    + exists k, x. now repeat split.
Qed.
